(** * GridSolver: a shallow embedding of the grid fluid solver

    This development embeds [GridSolver<2, real>] of
    [kim_hybrid_fluid/GridSolver.h] and proves properties of its step
    sequence, its boundary condition, its clamped back-trace and its
    sub-step count.

    Modelling choices.
    - [real] is embedded as the exact rationals [Q]: rounding, NaN and
      infinities of the machine type are outside the model.  Statements
      about copied values use Leibniz equality, statements about computed
      values use [==].
    - [int] is embedded as [Z] without wrap-around.  [size_t] is taken to
      be 64 bits wide; a conversion of a [real] to it has a result only
      when the truncated value is below 2^64.
    - A grid's storage is addressed by [Index2] as in the source
      ([operator[](Index2)], [velocityAt<k>(Index2)]); it is a total map from
      indices to values, as the accessors do no bounds checking.
    - The collider, the boundary-condition solver, the diffusion solver,
      the pressure solver, [Limits::eps()] and [Vector::max()] are
      collaborators whose code is not part of [GridSolver.h]; they are the
      fields of the class [Collaborators].
    - [_closedDomainBoundaryFlag] and [extrapolateIntoCollider], which no
      stage of a step reads or calls, are left out. *)

From Stdlib Require Import ZArith QArith Qabs Qround List Bool Lia Lqa.
Import ListNotations.

Local Open Scope Z_scope.

(** ** Indices, vectors, comparisons *)

Record Index2 : Set := mkIndex2 { ix : Z; iy : Z }.

Definition Index2_eqb (a b : Index2) : bool :=
  (ix a =? ix b) && (iy a =? iy b).

(** [Index<D>] plus a scalar, as in [size+2] of the constructor. *)
Definition Index2_add_scalar (a : Index2) (k : Z) : Index2 :=
  mkIndex2 (ix a + k) (iy a + k).

Record vec : Set := mkVec { vx : Q; vy : Q }.

Definition Qlt_bool (a b : Q) : bool := negb (Qle_bool b a).

(** [math::max<real>(a, b)] and [math::min<real>(a, b)], which are not under
    src/: the larger and the smaller of the two arguments. *)
Definition math_max (a b : Q) : Q := if Qlt_bool b a then a else b.
Definition math_min (a b : Q) : Q := if Qlt_bool a b then a else b.

Definition vec_add (a b : vec) : vec := mkVec (vx a + vx b)%Q (vy a + vy b)%Q.
Definition vec_sub (a b : vec) : vec := mkVec (vx a - vx b)%Q (vy a - vy b)%Q.
(** [k * a] and [a * k] for a scalar [k]. *)
Definition vec_scale (k : Q) (a : vec) : vec := mkVec (k * vx a)%Q (k * vy a)%Q.
Definition vec_times (a : vec) (k : Q) : vec := mkVec (vx a * k)%Q (vy a * k)%Q.

(** [Vector::min()], which is not under src/: the smallest coordinate, as
    the source uses it on [cellSize()], on [gridSpacing()] and on [size()]
    ("asserting min grid size").  [Vector::max()] is a field of
    [Collaborators] below. *)
Definition vec_min (a : vec) : Q := math_min (vx a) (vy a).
Definition squaredNorm (a : vec) : Q := (vx a * vx a + vy a * vy a)%Q.

(** One reading of [Vector::max()]: the largest absolute coordinate. *)
Definition largest_absolute_coordinate (a : vec) : Q :=
  math_max (Qabs (vx a)) (Qabs (vy a)).

(** The conversion of a [double] to [int]: truncation toward zero. *)
Definition to_int (x : Q) : Z :=
  if Qle_bool 0 x then Qfloor x else Qceiling x.

(** ** Loops *)

(** The values taken by [i] in [for (i = lo; i <= hi; ++i)]. *)
Definition Zrange (lo hi : Z) : list Z :=
  map (fun k => lo + Z.of_nat k) (seq 0 (Z.to_nat (hi - lo + 1))).

Definition for_each {S : Type} (l : list Z) (body : Z -> S -> S) (s : S) : S :=
  fold_left (fun acc i => body i acc) l s.

(** [forEachIndex<2>(size, f)]: every index of [0..size.x-1] x
    [0..size.y-1], once. *)
Definition forEachIndex (size : Index2) : list Index2 :=
  flat_map (fun j => map (fun i => mkIndex2 i j) (Zrange 0 (ix size - 1)))
           (Zrange 0 (iy size - 1)).

(** ** Grid data *)

Definition GridData : Type := Index2 -> Q.

Definition grid_set (d : GridData) (k : Index2) (v : Q) : GridData :=
  fun i => if Index2_eqb i k then v else d i.

(** [CellCenteredScalarGrid<2, real>(size, spacing, origin)]. *)
Record CellCenteredScalarGrid : Type := mkScalarGrid {
  dsize : Index2;
  dspacing : vec;
  dorigin : vec;
  ddata : GridData
}.

(** [FaceCenteredGrid<2, real>(size, spacing, origin)]: one array per
    component, [udata] read by [velocityAt<0>] and [vdata] by
    [velocityAt<1>]. *)
Record FaceCenteredGrid : Type := mkFaceGrid {
  vsize : Index2;
  gridSpacing : vec;
  vorigin : vec;
  udata : GridData;
  vdata : GridData
}.

Definition velocityAt0 (g : FaceCenteredGrid) (i : Index2) : Q := udata g i.
Definition velocityAt1 (g : FaceCenteredGrid) (i : Index2) : Q := vdata g i.

(** Modelled from the spec: [FaceCenteredGrid::iSize<k>()] is not under
    src/.  The extent of component k along axis k is one larger than the
    cell count. *)
Definition iSize0 (g : FaceCenteredGrid) : Index2 :=
  mkIndex2 (ix (vsize g) + 1) (iy (vsize g)).
Definition iSize1 (g : FaceCenteredGrid) : Index2 :=
  mkIndex2 (ix (vsize g)) (iy (vsize g) + 1).

(** Modelled from the spec: [FaceCenteredGrid::valueAtCellCenter] is not
    under src/.  The vector at a cell center is put together from one sample
    of each staggered component, here the mean of the two faces of the
    cell. *)
Definition valueAtCellCenter (g : FaceCenteredGrid) (i : Index2) : vec :=
  mkVec ((1#2) * (udata g i + udata g (mkIndex2 (ix i + 1) (iy i))))%Q
        ((1#2) * (vdata g i + vdata g (mkIndex2 (ix i) (iy i + 1))))%Q.

(** Modelled from the spec: the geometry of [CellCenteredScalarGrid] is not
    under src/.  [dataPosition(index) = origin + index * spacing]; the grid
    has [size] cells of the given spacing on each axis, so that its bounds
    span from [origin] to [origin + size * spacing]. *)
Definition cellSize (g : CellCenteredScalarGrid) : vec := dspacing g.
Definition dataOrigin (g : CellCenteredScalarGrid) : vec := dorigin g.
Definition dataPosition (g : CellCenteredScalarGrid) (i : Index2) : vec :=
  mkVec (vx (dataOrigin g) + inject_Z (ix i) * vx (cellSize g))%Q
        (vy (dataOrigin g) + inject_Z (iy i) * vy (cellSize g))%Q.
Definition bounds_min (g : CellCenteredScalarGrid) : vec := dorigin g.
Definition bounds_max (g : CellCenteredScalarGrid) : vec :=
  mkVec (vx (dorigin g) + inject_Z (ix (dsize g)) * vx (dspacing g))%Q
        (vy (dorigin g) + inject_Z (iy (dsize g)) * vy (dspacing g))%Q.

(** Modelled from the spec: [CellCenteredScalarGrid::sample] is not under
    src/.  It interpolates bilinearly among the stored neighbours; an
    out-of-range axis component is clamped to the innermost valid cell
    first. *)
Definition getBarycentric (x : Q) (extent : Z) : Z * Q :=
  let s := Qfloor x in
  if s <? 0 then (0, 0%Q)
  else if extent - 2 <? s then (extent - 2, 1%Q)
  else (s, (x - inject_Z s)%Q).

Definition lerp (a b t : Q) : Q := ((1 - t) * a + t * b)%Q.

Definition sample (g : CellCenteredScalarGrid) (p : vec) : Q :=
  let '(i, fx) := getBarycentric ((vx p - vx (dataOrigin g)) / vx (cellSize g))%Q
                                 (ix (dsize g)) in
  let '(j, fy) := getBarycentric ((vy p - vy (dataOrigin g)) / vy (cellSize g))%Q
                                 (iy (dsize g)) in
  lerp (lerp (ddata g (mkIndex2 i j)) (ddata g (mkIndex2 (i + 1) j)) fx)
       (lerp (ddata g (mkIndex2 i (j + 1))) (ddata g (mkIndex2 (i + 1) (j + 1))) fx)
       fy.

Definition set_data (g : CellCenteredScalarGrid) (d : GridData) : CellCenteredScalarGrid :=
  mkScalarGrid (dsize g) (dspacing g) (dorigin g) d.

(** ** Collaborators *)

(** What [GridSolver.h] calls but does not define.
    - [Collider<D, real>] with [update(currentTime, timeInterval)];
    - [GridFractionalBoundaryConditionSolver], whose [updateCollider]
      rasterizes the collider and from which [colliderSdf()] and
      [colliderVelocityField()] are read;
    - [GridBackwardEulerDiffusionSolver::solve] and
      [GridFractionalSinglePhasePressureSolver::solve], which read the
      velocity, the interval and the rasterized collider and write the
      velocity ([fluidSdf()] is the constant field [Limits::inf()]);
    - [math::Limits<real>::eps()], which is
      [std::numeric_limits<real>::min()];
    - [Vector::max()], the value that [cfl] takes of the advanced velocity
      of a cell. *)
Class Collaborators : Type := {
  Collider : Type;
  Collider_update : Collider -> Q -> Q -> Collider;
  BoundaryConditionSolver : Type;
  bcs_updateCollider :
    BoundaryConditionSolver -> option Collider -> Index2 -> vec -> vec ->
    BoundaryConditionSolver;
  diffusion_solve :
    FaceCenteredGrid -> Q -> Q -> BoundaryConditionSolver -> FaceCenteredGrid;
  pressure_solve :
    FaceCenteredGrid -> Q -> BoundaryConditionSolver -> FaceCenteredGrid;
  bcs_initial : BoundaryConditionSolver;
  Limits_eps : Q;
  Vector_max : vec -> Q
}.

(** ** The solver *)

Section Model.

Context `{E : Collaborators}.

(** The members of [GridSolver], [currentTime()] of the base class
    [PhysicsAnimation], and a record of the calls made to
    [Collider::update], each with its two arguments, oldest first. *)
Record GridSolver : Type := mkGridSolver {
  _solverSize : Index2;
  _gravity : vec;
  _viscosityCoefficient : Q;
  _maxCfl : Q;
  _velocity : FaceCenteredGrid;
  _density : CellCenteredScalarGrid;
  _collider : option Collider;
  _boundaryConditionSolver : BoundaryConditionSolver;
  currentTime : Q;
  collider_updates : list (Q * Q)
}.

Definition with_velocity (s : GridSolver) (v : FaceCenteredGrid) : GridSolver :=
  mkGridSolver (_solverSize s) (_gravity s) (_viscosityCoefficient s) (_maxCfl s)
    v (_density s) (_collider s) (_boundaryConditionSolver s)
    (currentTime s) (collider_updates s).

Definition with_density (s : GridSolver) (d : CellCenteredScalarGrid) : GridSolver :=
  mkGridSolver (_solverSize s) (_gravity s) (_viscosityCoefficient s) (_maxCfl s)
    (_velocity s) d (_collider s) (_boundaryConditionSolver s)
    (currentTime s) (collider_updates s).

(** [GridSolver(size, spacing, origin)]: both grids get a ghost border of
    one cell on each side. *)
Definition GridSolver_new (size : Index2) (spacing origin : vec) : GridSolver :=
  mkGridSolver size (mkVec 0%Q (-(98#10))%Q) 0%Q 5%Q
    (mkFaceGrid (Index2_add_scalar size 2) spacing (vec_sub origin spacing)
                (fun _ => 0%Q) (fun _ => 0%Q))
    (mkScalarGrid (Index2_add_scalar size 2) spacing (vec_sub origin spacing)
                  (fun _ => 0%Q))
    None bcs_initial 0%Q [].

Definition size (s : GridSolver) : Index2 := _solverSize s.

Definition setGravity (s : GridSolver) (g : vec) : GridSolver :=
  mkGridSolver (_solverSize s) g (_viscosityCoefficient s) (_maxCfl s)
    (_velocity s) (_density s) (_collider s) (_boundaryConditionSolver s)
    (currentTime s) (collider_updates s).

Definition setViscosityCoefficient (s : GridSolver) (viscosity : Q) : GridSolver :=
  mkGridSolver (_solverSize s) (_gravity s) (math_max viscosity 0%Q) (_maxCfl s)
    (_velocity s) (_density s) (_collider s) (_boundaryConditionSolver s)
    (currentTime s) (collider_updates s).

Definition setMaxCfl (s : GridSolver) (newCfl : Q) : GridSolver :=
  mkGridSolver (_solverSize s) (_gravity s) (_viscosityCoefficient s)
    (math_max newCfl Limits_eps)
    (_velocity s) (_density s) (_collider s) (_boundaryConditionSolver s)
    (currentTime s) (collider_updates s).

Definition setCollider (s : GridSolver) (c : option Collider) : GridSolver :=
  mkGridSolver (_solverSize s) (_gravity s) (_viscosityCoefficient s) (_maxCfl s)
    (_velocity s) (_density s) c (_boundaryConditionSolver s)
    (currentTime s) (collider_updates s).

(** Modelled from the spec: [math::isPositive] and [math::isZero] are not
    under src/.  A value is positive when it exceeds the smallest positive
    representable value, and zero when its magnitude does not. *)
Definition isPositive (x : Q) : bool := Qlt_bool Limits_eps x.
Definition isZero (x : Q) : bool := Qle_bool (Qabs x) Limits_eps.

(** [cfl]: [maxVel] starts at 0 and takes, cell after cell, the larger of
    itself and [v.max()] of the advanced velocity [v]. *)
Definition cfl_maxVel (s : GridSolver) (timeInterval : Q) : Q :=
  fold_left
    (fun maxVel index =>
       let v := vec_add (valueAtCellCenter (_velocity s) index)
                        (vec_scale timeInterval (_gravity s)) in
       math_max maxVel (Vector_max v))
    (forEachIndex (vsize (_velocity s))) 0%Q.

Definition cfl (s : GridSolver) (timeInterval : Q) : Q :=
  (cfl_maxVel s timeInterval * timeInterval / vec_min (gridSpacing (_velocity s)))%Q.

(** [std::ceil] on a [real], and [static_cast<size_t>] of a [real]: the
    value truncated toward zero when that is a [size_t], and no result
    ([None]) when it is not, where the conversion is undefined. *)
Definition std_ceil (x : Q) : Q := inject_Z (Qceiling x).
Definition to_size_t (x : Q) : option N :=
  let t := to_int x in
  if (0 <=? t) && (t <? 2 ^ 64) then Some (Z.to_N t) else None.

Definition numberOfSubTimeSteps (s : GridSolver) (timeInterval : Q)
    : option N :=
  let _cfl := cfl s timeInterval in
  to_size_t (math_max (std_ceil (_cfl / _maxCfl s)%Q) 1%Q).

(** [applyBoundaryCondition]: the four edge copies of one loop round, the
    loop, and the four corners. *)
Definition boundary_round (N i : Z) (d : GridData) : GridData :=
  let d := grid_set d (mkIndex2 0 i) (d (mkIndex2 1 i)) in
  let d := grid_set d (mkIndex2 (N + 1) i) (d (mkIndex2 N i)) in
  let d := grid_set d (mkIndex2 i 0) (d (mkIndex2 i 1)) in
  grid_set d (mkIndex2 i (N + 1)) (d (mkIndex2 i N)).

Definition boundary_corners (N : Z) (d : GridData) : GridData :=
  let d := grid_set d (mkIndex2 0 0)
             ((1#2) * (d (mkIndex2 1 0) + d (mkIndex2 0 1)))%Q in
  let d := grid_set d (mkIndex2 0 (N + 1))
             ((1#2) * (d (mkIndex2 1 (N + 1)) + d (mkIndex2 0 N)))%Q in
  let d := grid_set d (mkIndex2 (N + 1) 0)
             ((1#2) * (d (mkIndex2 N 0) + d (mkIndex2 (N + 1) 1)))%Q in
  grid_set d (mkIndex2 (N + 1) (N + 1))
    ((1#2) * (d (mkIndex2 N (N + 1)) + d (mkIndex2 (N + 1) N)))%Q.

Definition boundary_data (N : Z) (d : GridData) : GridData :=
  boundary_corners N (for_each (Zrange 1 N) (boundary_round N) d).

Definition applyBoundaryCondition (s : GridSolver) : GridSolver :=
  let N := ix (size s) in
  with_density s (set_data (_density s) (boundary_data N (ddata (_density s)))).

(** The hooks, which do nothing in [GridSolver] itself. *)
Definition onBeginAdvanceTimeStep (s : GridSolver) (timeInterval : Q) : GridSolver := s.
Definition onEndAdvanceTimeStep (s : GridSolver) (timeInterval : Q) : GridSolver := s.

Definition updateCollider (s : GridSolver) (timeInterval : Q) : GridSolver :=
  match _collider s with
  | Some c =>
      mkGridSolver (_solverSize s) (_gravity s) (_viscosityCoefficient s) (_maxCfl s)
        (_velocity s) (_density s)
        (Some (Collider_update c (currentTime s) timeInterval))
        (_boundaryConditionSolver s) (currentTime s)
        (collider_updates s ++ [(currentTime s, timeInterval)])
  | None => s
  end.

Definition updateEmitter (s : GridSolver) (timeInterval : Q) : GridSolver := s.

Definition initialize (s : GridSolver) : GridSolver :=
  updateEmitter (updateCollider s 0%Q) 0%Q.

Definition beginAdvanceTimeStep (s : GridSolver) (timeInterval : Q) : GridSolver :=
  let s := updateCollider s timeInterval in
  let s := updateEmitter s timeInterval in
  let s :=
    mkGridSolver (_solverSize s) (_gravity s) (_viscosityCoefficient s) (_maxCfl s)
      (_velocity s) (_density s) (_collider s)
      (bcs_updateCollider (_boundaryConditionSolver s) (_collider s)
         (vsize (_velocity s)) (gridSpacing (_velocity s)) (vorigin (_velocity s)))
      (currentTime s) (collider_updates s) in
  let s := applyBoundaryCondition s in
  onBeginAdvanceTimeStep s timeInterval.

Definition endAdvanceTimeStep (s : GridSolver) (timeInterval : Q) : GridSolver :=
  onEndAdvanceTimeStep s timeInterval.

Definition computeViscosity (s : GridSolver) (timeInterval : Q) : GridSolver :=
  if isPositive (_viscosityCoefficient s) then
    let s := with_velocity s
               (diffusion_solve (_velocity s) (_viscosityCoefficient s) timeInterval
                  (_boundaryConditionSolver s)) in
    applyBoundaryCondition s
  else s.

Definition computePressure (s : GridSolver) (timeInterval : Q) : GridSolver :=
  let s := with_velocity s
             (pressure_solve (_velocity s) timeInterval (_boundaryConditionSolver s)) in
  applyBoundaryCondition s.

Definition advectVelocity (s : GridSolver) (idx : Index2) (timeInterval : Q) : GridSolver := s.

(** The point at which [advectDensity] samples the density. *)
Definition backtrace (s : GridSolver) (idx : Index2) (timeInterval : Q) : vec :=
  let vel := mkVec (velocityAt0 (_velocity s) idx) (velocityAt1 (_velocity s) idx) in
  let pos := dataPosition (_density s) idx in
  let minX := (vx (bounds_min (_density s)) + vx (cellSize (_density s)))%Q in
  let maxX := (vx (bounds_max (_density s)) - vx (cellSize (_density s)))%Q in
  let minY := (vy (bounds_min (_density s)) + vy (cellSize (_density s)))%Q in
  let maxY := (vy (bounds_max (_density s)) - vy (cellSize (_density s)))%Q in
  let newPos := vec_sub pos (vec_times vel timeInterval) in
  let x := if Qlt_bool (vx newPos) minX then minX else vx newPos in
  let x := if Qlt_bool maxX x then maxX else x in
  let y := if Qlt_bool (vy newPos) minY then minY else vy newPos in
  let y := if Qlt_bool maxY y then maxY else y in
  mkVec x y.

Definition advectDensity (s : GridSolver) (idx : Index2) (timeInterval : Q) : GridSolver :=
  let newPos := backtrace s idx timeInterval in
  with_density s
    (set_data (_density s)
       (grid_set (ddata (_density s)) idx (sample (_density s) newPos))).

(** The two nested loops of [computeAdvection], [index.y] outermost. *)
Definition advection_sweep (s : GridSolver) (timeInterval : Q) : GridSolver :=
  let N := ix (size s) in
  for_each (Zrange 1 N)
    (fun y s =>
       for_each (Zrange 1 N)
         (fun x s => advectDensity s (mkIndex2 x y) timeInterval) s) s.

Definition computeAdvection (s : GridSolver) (timeInterval : Q) : GridSolver :=
  applyBoundaryCondition (advection_sweep s timeInterval).

Definition computeSource (s : GridSolver) (timeInterval : Q) : GridSolver :=
  applyBoundaryCondition s.

(** [computeGravity]: each round of its loops adds to one sample of a
    component array; the flat offsets [0 .. prod-1] of an array are its
    indices, each once. *)
Definition add_to_all (size : Index2) (c : Q) (d : GridData) : GridData :=
  fold_left (fun d i => grid_set d i (d i + c)%Q) (forEachIndex size) d.

Definition computeGravity (s : GridSolver) (timeInterval : Q) : GridSolver :=
  if Qlt_bool Limits_eps (squaredNorm (_gravity s)) then
    let v := _velocity s in
    let u' := if negb (isZero (vx (_gravity s)))
              then add_to_all (iSize0 v) (timeInterval * vx (_gravity s))%Q (udata v)
              else udata v in
    let v' := if negb (isZero (vy (_gravity s)))
              then add_to_all (iSize1 v) (timeInterval * vy (_gravity s))%Q (vdata v)
              else vdata v in
    applyBoundaryCondition
      (with_velocity s (mkFaceGrid (vsize v) (gridSpacing v) (vorigin v) u' v'))
  else s.

Definition computeExternalForces (s : GridSolver) (timeInterval : Q) : GridSolver :=
  computeGravity s timeInterval.

Definition densityStep (s : GridSolver) (timeInterval : Q) : GridSolver :=
  let s := computeSource s timeInterval in
  let s := computeViscosity s timeInterval in
  computeAdvection s timeInterval.

(** [velocityStep]: the call of [computeExternalForces] is commented out in
    the source, so it is not part of the sequence. *)
Definition velocityStep (s : GridSolver) (timeInterval : Q) : GridSolver :=
  let s := beginAdvanceTimeStep s timeInterval in
  let s := computeViscosity s timeInterval in
  let s := computePressure s timeInterval in
  let s := computeAdvection s timeInterval in
  endAdvanceTimeStep s timeInterval.

Definition onAdvanceTimeStep (s : GridSolver) (timeInterval : Q) : GridSolver :=
  let s := beginAdvanceTimeStep s timeInterval in
  let s := densityStep s timeInterval in
  let s := velocityStep s timeInterval in
  endAdvanceTimeStep s timeInterval.

End Model.

(** ** What the boundary condition establishes *)

(** The interior cell an edge ghost cell is copied from, if [i] is an edge
    ghost cell of the N x N interior. *)
Definition edge_source (N : Z) (i : Index2) : option Index2 :=
  if (ix i =? 0) && (1 <=? iy i) && (iy i <=? N) then Some (mkIndex2 1 (iy i))
  else if (ix i =? N + 1) && (1 <=? iy i) && (iy i <=? N) then Some (mkIndex2 N (iy i))
  else if (iy i =? 0) && (1 <=? ix i) && (ix i <=? N) then Some (mkIndex2 (ix i) 1)
  else if (iy i =? N + 1) && (1 <=? ix i) && (ix i <=? N) then Some (mkIndex2 (ix i) N)
  else None.

(** The round of the loop in which an edge ghost cell is written. *)
Definition edge_round (N : Z) (i : Index2) : Z :=
  if (ix i =? 0) || (ix i =? N + 1) then iy i else ix i.

(** The two edge ghost cells next to a ghost corner, if [i] is one. *)
Definition corner_neighbours (N : Z) (i : Index2) : option (Index2 * Index2) :=
  if Index2_eqb i (mkIndex2 0 0) then Some (mkIndex2 1 0, mkIndex2 0 1)
  else if Index2_eqb i (mkIndex2 0 (N + 1)) then Some (mkIndex2 1 (N + 1), mkIndex2 0 N)
  else if Index2_eqb i (mkIndex2 (N + 1) 0) then Some (mkIndex2 N 0, mkIndex2 (N + 1) 1)
  else if Index2_eqb i (mkIndex2 (N + 1) (N + 1))
       then Some (mkIndex2 N (N + 1), mkIndex2 (N + 1) N)
  else None.

Definition edge_value (N : Z) (d : GridData) (i : Index2) : Q :=
  match edge_source N i with
  | Some src => d src
  | None => d i
  end.

(** The field after the boundary condition, cell by cell. *)
Definition boundary_spec (N : Z) (d : GridData) : GridData :=
  fun i =>
    match corner_neighbours N i with
    | Some (a, b) => ((1#2) * (edge_value N d a + edge_value N d b))%Q
    | None => edge_value N d i
    end.

Definition interior (N : Z) (i : Index2) : Prop :=
  1 <= ix i <= N /\ 1 <= iy i <= N.

(** The ghost-border invariant of a density field. *)
Definition ghost_invariant (N : Z) (d : GridData) : Prop :=
  (forall i, 1 <= i <= N ->
     d (mkIndex2 0 i) = d (mkIndex2 1 i) /\
     d (mkIndex2 (N + 1) i) = d (mkIndex2 N i) /\
     d (mkIndex2 i 0) = d (mkIndex2 i 1) /\
     d (mkIndex2 i (N + 1)) = d (mkIndex2 i N)) /\
  d (mkIndex2 0 0) = ((1#2) * (d (mkIndex2 1 0) + d (mkIndex2 0 1)))%Q /\
  d (mkIndex2 0 (N + 1)) = ((1#2) * (d (mkIndex2 1 (N + 1)) + d (mkIndex2 0 N)))%Q /\
  d (mkIndex2 (N + 1) 0) = ((1#2) * (d (mkIndex2 N 0) + d (mkIndex2 (N + 1) 1)))%Q /\
  d (mkIndex2 (N + 1) (N + 1)) =
    ((1#2) * (d (mkIndex2 N (N + 1)) + d (mkIndex2 (N + 1) N)))%Q.

(** ** Notions used in the statements *)

Section Notions.

Context `{E : Collaborators}.

(** [_density->operator[](idx)]. *)
Definition density_at (s : GridSolver) (i : Index2) : Q := ddata (_density s) i.

Definition ghost_border_ok (s : GridSolver) : Prop :=
  ghost_invariant (ix (size s)) (ddata (_density s)).

(** An observation of the solver that does not read the density values,
    and one that does not read the velocity field. *)
Definition ignores_density {A : Type} (f : GridSolver -> A) : Prop :=
  forall s d, f (with_density s (set_data (_density s) d)) = f s.

Definition ignores_velocity {A : Type} (f : GridSolver -> A) : Prop :=
  forall s v, f (with_velocity s v) = f s.

(** An observation that reads neither the collider, nor its rasterization,
    nor the record of its updates. *)
Definition ignores_collider {A : Type} (f : GridSolver -> A) : Prop :=
  forall s c b l,
    f (mkGridSolver (_solverSize s) (_gravity s) (_viscosityCoefficient s)
         (_maxCfl s) (_velocity s) (_density s) c b (currentTime s) l) = f s.

(** A velocity field that is zero everywhere. *)
Definition at_rest (v : FaceCenteredGrid) : Prop :=
  forall i, (velocityAt0 v i == 0)%Q /\ (velocityAt1 v i == 0)%Q.

(** A solver as the constructor builds it from a square size N x N, N >= 1,
    and a positive spacing. *)
Definition well_formed (s : GridSolver) : Prop :=
  1 <= ix (size s) /\ iy (size s) = ix (size s) /\
  dsize (_density s) = Index2_add_scalar (size s) 2 /\
  (0 < vx (dspacing (_density s)))%Q /\ (0 < vy (dspacing (_density s)))%Q.

(** The sizes and the spacing, which no stage changes. *)
Definition setup (s : GridSolver) : Index2 * Index2 * vec :=
  (_solverSize s, dsize (_density s), dspacing (_density s)).

(** [s] has the setup of [s0], a velocity that is zero everywhere, and the
    interior density values of [s0]. *)
Definition calm (s0 s : GridSolver) : Prop :=
  setup s = setup s0 /\
  dorigin (_density s) = dorigin (_density s0) /\
  at_rest (_velocity s) /\
  forall idx, interior (ix (size s0)) idx ->
              (density_at s idx == density_at s0 idx)%Q.

(** The advanced velocity of a cell, as [cfl] forms it. *)
Definition advanced_velocity (s : GridSolver) (timeInterval : Q) (index : Index2) : vec :=
  vec_add (valueAtCellCenter (_velocity s) index)
          (vec_scale timeInterval (_gravity s)).

End Notions.


(** ** Concrete collaborators and solvers *)

(** A collider that drifts with unit speed, a rasterization that keeps the
    collider it was given, and a diffusion and a projection that return the
    field they are given, as they do for a fluid at rest with no moving
    wall.  [Limits_eps] is the smallest positive normal single-precision
    number, and [Vector_max] the largest absolute coordinate. *)
Definition still_fluid : Collaborators := {|
  Collider := Q;
  Collider_update := fun c _ timeInterval => (c + timeInterval)%Q;
  BoundaryConditionSolver := option Q;
  bcs_updateCollider := fun _ c _ _ _ => c;
  diffusion_solve := fun v _ _ _ => v;
  pressure_solve := fun v _ _ => v;
  bcs_initial := None;
  Limits_eps := (1 # (2 ^ 126))%Q;
  Vector_max := largest_absolute_coordinate
|}.

(** A 2 x 2 solver with unit spacing, as constructed: velocity zero, density
    zero, gravity (0, -9.8), viscosity 0, no collider. *)
Definition solver_2x2 : @GridSolver still_fluid :=
  GridSolver_new (mkIndex2 2 2) (mkVec 1%Q 1%Q) (mkVec 0%Q 0%Q).

(** The 4 x 4 scenario: density 0 except cell (1,3), which holds 1. *)
Definition solver_4x4 : @GridSolver still_fluid :=
  let s := GridSolver_new (mkIndex2 4 4) (mkVec (1#10) (1#10)) (mkVec (-(1))%Q (-(1))%Q) in
  with_density s (set_data (_density s)
                    (grid_set (ddata (_density s)) (mkIndex2 1 3) 1%Q)).

(** ** The simulation window (GLSimulationWindow.h) *)

(** [mouseToGridIndex(double xPos, double yPos)]; [width] and [height] are
    [width()] and [height()] of the window and [size] is
    [_solver->size()]. *)
Definition mouseToGridIndex (width height : Z) (size : Index2) (xPos yPos : Q)
    : Index2 :=
  let w := inject_Z (width - 1) in
  let h := inject_Z height in
  let i := to_int (inject_Z (ix size) * xPos / w)%Q in
  let j := to_int (inject_Z (iy size) * (h - yPos) / h)%Q in
  let i := if (i <? 0) || (i >? ix size - 1) then -1 else i in
  let j := if (j <? 0) || (j >? iy size - 1) then -1 else j in
  mkIndex2 i j.

(** [mouseToGridIndex()], which reads the cursor position, two [int]s, and
    does not check the result. *)
Definition mouseToGridIndex_cursor (width height : Z) (size : Index2)
    (xPos yPos : Z) : Index2 :=
  let w := inject_Z (width - 1) in
  let h := inject_Z height in
  let i := to_int (inject_Z (ix size * xPos) / w)%Q in
  let j := to_int (inject_Z (iy size) * (h - inject_Z yPos) / h)%Q in
  mkIndex2 i j.

(** The values that [buildSolver] writes into [indices], in the order of
    [index]: six per cell of the [(d_size.x - 1) x (d_size.y - 1)] mesh. *)
Definition element_indices (d_size : Index2) : list Z :=
  flat_map
    (fun x =>
       flat_map
         (fun z =>
            let offset := x * ix d_size + z in
            [offset + 0; offset + 1; offset + ix d_size;
             offset + 1; offset + ix d_size + 1; offset + ix d_size])
         (Zrange 0 (iy d_size - 2)))
    (Zrange 0 (ix d_size - 2)).

(** ** The point grid searcher (PointGrid2.h) *)

(** What [findNeighbors] reads of a [PointGrid<2, real, PointArray>]:
    [size()], [cellSize()], [index(point)], the list of point ids [grid[c]]
    of a cell, and [points()[id]]. *)
Record PointGrid : Type := mkPointGrid {
  pg_size : Index2;
  pg_cellSize : vec;
  pg_index : vec -> Index2;
  pg_cell : Index2 -> list nat;
  pg_points : nat -> vec
}.

(** [math::sqr]. *)
Definition math_sqr (x : Q) : Q := (x * x)%Q.

(** The innermost loop of [findNeighbors], over the ids of cell [c];
    [nids.add] appends. *)
Definition add_cell_neighbors (grid : PointGrid) (point : vec) (h : Q)
    (c : Index2) (nids : list nat) : list nat :=
  fold_left
    (fun nids id =>
       let d2 := squaredNorm (vec_sub point (pg_points grid id)) in
       if negb (Qeq_bool d2 0) && Qle_bool d2 h then nids ++ [id] else nids)
    (pg_cell grid c) nids.

(** [PointGridSearcher<2>::findNeighbors(grid, point, nids)]: the list left
    in [nids] and the value returned. *)
Definition findNeighbors (grid : PointGrid) (point : vec) (nids : list nat)
    : list nat * nat :=
  let s := pg_index grid point in
  let n := pg_size grid in
  let h := math_sqr (vec_min (pg_cellSize grid)) in
  let nids : list nat := [] in
  let nids :=
    for_each (Zrange (-1) 1)
      (fun j nids =>
         let cy := iy s + j in
         if (cy <? 0) || (cy >=? iy n) then nids
         else
           for_each (Zrange (-1) 1)
             (fun i nids =>
                let cx := ix s + i in
                if (cx <? 0) || (cx >=? ix n) then nids
                else add_cell_neighbors grid point h (mkIndex2 cx cy) nids)
             nids)
      nids in
  (nids, length nids).

(** ** Further notions *)

(** A cell of the one-cell ring around the N x N interior. *)
Definition ghost_cell (N : Z) (i : Index2) : Prop :=
  0 <= ix i <= N + 1 /\ 0 <= iy i <= N + 1 /\
  (ix i = 0 \/ ix i = N + 1 \/ iy i = 0 \/ iy i = N + 1).

(** An index of a component array of the given extent. *)
Definition in_extent (size i : Index2) : Prop :=
  0 <= ix i < ix size /\ 0 <= iy i < iy size.

(** Every value of the field lies between [lo] and [hi]. *)
Definition bounded (lo hi : Q) (d : GridData) : Prop :=
  forall i, (lo <= d i <= hi)%Q.

(** Every density value of the solver lies between [lo] and [hi]. *)
Definition density_in_range `{E : Collaborators} (lo hi : Q) (s : GridSolver)
    : Prop :=
  bounded lo hi (ddata (_density s)).

(** The test of [findNeighbors] on a point id: its point is not at the
    query point and not farther from it than the square root of [h]. *)
Definition near_point (grid : PointGrid) (point : vec) (h : Q) (id : nat)
    : Prop :=
  ~ (squaredNorm (vec_sub point (pg_points grid id)) == 0)%Q /\
  (squaredNorm (vec_sub point (pg_points grid id)) <= h)%Q.

(** A small point grid: 3 x 3 cells of size 1, three points in cell (1,1),
    two of them at the same place, and one point in cell (2,1). *)
Definition grid_3x3 : PointGrid :=
  mkPointGrid (mkIndex2 3 3) (mkVec 1 1)
    (fun p => mkIndex2 (Qfloor (vx p)) (Qfloor (vy p)))
    (fun c => if Index2_eqb c (mkIndex2 1 1) then [0; 1; 2]%nat
              else if Index2_eqb c (mkIndex2 2 1) then [3%nat] else [])
    (fun id => match id with
               | 0%nat => mkVec (3#2) (3#2)
               | 1%nat => mkVec (3#2) (3#2)
               | 2%nat => mkVec (5#4) (3#2)
               | _ => mkVec (5#2) (3#2)
               end).

(** The cells that the two loops of [computeAdvection] visit, in the order
    of the visits: [index.y] outermost, both from 1 to N. *)
Definition sweep_cells (N : Z) : list Index2 :=
  flat_map (fun y => map (fun x => mkIndex2 x y) (Zrange 1 N)) (Zrange 1 N).

(** [advectDensity] called on the cells of [l], one after the other. *)
Definition advect_cells `{E : Collaborators} (s : GridSolver)
    (l : list Index2) (timeInterval : Q) : GridSolver :=
  fold_left (fun s k => advectDensity s k timeInterval) l s.


(** [Vector::max()] is at least each coordinate of its vector, as the
    largest coordinate, the largest absolute coordinate and the norm all
    are. *)
Definition max_dominates_coordinates `{E : Collaborators} : Prop :=
  forall v : vec, (vx v <= Vector_max v)%Q /\ (vy v <= Vector_max v)%Q.

(** The constructed 2 x 2 solver, stirred: the x velocity is -1 at cell
    (1,1), 1 at cell (2,1) and -1000 elsewhere, the y velocity is zero; the
    density is 1 at cell (1,1), 2 at cell (2,1), 7 at the ghost cell (3,2)
    and 0 elsewhere.  The density grid has 4 x 4 cells of spacing 1 and its
    origin at (-1,-1). *)
Definition solver_2x2_stirred : @GridSolver still_fluid :=
  let s := solver_2x2 in
  let v := _velocity s in
  with_density
    (with_velocity s
       (mkFaceGrid (vsize v) (gridSpacing v) (vorigin v)
          (fun i => if Index2_eqb i (mkIndex2 1 1) then (-(1))%Q
                    else if Index2_eqb i (mkIndex2 2 1) then 1%Q
                    else (-(1000))%Q)
          (vdata v)))
    (set_data (_density s)
       (fun i => if Index2_eqb i (mkIndex2 1 1) then 1%Q
                 else if Index2_eqb i (mkIndex2 2 1) then 2%Q
                 else if Index2_eqb i (mkIndex2 3 2) then 7%Q
                 else 0%Q)).

(** The constructed 2 x 2 solver with viscosity 1 and a collider at 0. *)
Definition solver_2x2_viscous : @GridSolver still_fluid :=
  setCollider (setViscosityCoefficient solver_2x2 1) (Some 0%Q).

(** * Properties *)

Lemma Index2_eqb_spec (a b : Index2) : reflect (a = b) (Index2_eqb a b).
Proof.
  destruct a as [ax ay], b as [bx b_y]; unfold Index2_eqb; simpl.
  destruct (Z.eqb_spec ax bx), (Z.eqb_spec ay b_y); simpl; constructor;
    congruence.
Qed.

Lemma grid_set_eq (d : GridData) (k : Index2) (v : Q) : grid_set d k v k = v.
Proof. unfold grid_set. now destruct (Index2_eqb_spec k k). Qed.

Lemma grid_set_neq (d : GridData) (k i : Index2) (v : Q) :
  i <> k -> grid_set d k v i = d i.
Proof. unfold grid_set. now destruct (Index2_eqb_spec i k). Qed.

(** Case analysis on every integer comparison of the goal. *)
Ltac split_cmp :=
  repeat match goal with
    | |- context [Z.eqb ?a ?b] => destruct (Z.eqb_spec a b); cbn [ix iy andb orb] in *; try lia
    | |- context [Z.leb ?a ?b] => destruct (Z.leb_spec a b); cbn [ix iy andb orb] in *; try lia
    | |- context [Z.ltb ?a ?b] => destruct (Z.ltb_spec a b); cbn [ix iy andb orb] in *; try lia
    end.

Ltac same_cell := repeat f_equal; lia.

Lemma boundary_round_spec (N i : Z) (d : GridData) (k : Index2) :
  1 <= N -> 1 <= i <= N ->
  boundary_round N i d k =
  match edge_source N k with
  | Some src => if edge_round N k =? i then d src else d k
  | None => d k
  end.
Proof.
  intros HN Hi. destruct k as [x y].
  unfold boundary_round, grid_set, Index2_eqb, edge_source, edge_round; cbn [ix iy].
  split_cmp; subst; try reflexivity; try same_cell.
Qed.

Lemma edge_source_interior (N : Z) (k src : Index2) :
  1 <= N -> edge_source N k = Some src -> interior N src.
Proof.
  intros HN. destruct k as [x y]. unfold edge_source, interior; cbn [ix iy].
  split_cmp; intros Hsrc; inversion Hsrc; subst; cbn [ix iy]; lia.
Qed.

Lemma interior_no_edge (N : Z) (k : Index2) :
  interior N k -> edge_source N k = None.
Proof.
  destruct k as [x y]. unfold edge_source, interior; cbn [ix iy]. intros Hint.
  split_cmp; reflexivity.
Qed.

Lemma interior_no_corner (N : Z) (k : Index2) :
  interior N k -> corner_neighbours N k = None.
Proof.
  destruct k as [x y]. unfold corner_neighbours, Index2_eqb, interior; cbn [ix iy].
  intros Hint. split_cmp; reflexivity.
Qed.

Lemma boundary_round_interior (N i : Z) (d : GridData) (k : Index2) :
  1 <= N -> 1 <= i <= N -> interior N k -> boundary_round N i d k = d k.
Proof.
  intros HN Hi Hk. rewrite boundary_round_spec by assumption.
  now rewrite (interior_no_edge N k Hk).
Qed.

(** The loop of the boundary condition, over any list of rounds. *)
Lemma boundary_loop_spec (N : Z) (l : list Z) :
  1 <= N -> Forall (fun i => 1 <= i <= N) l ->
  forall (d : GridData) (k : Index2),
    for_each l (boundary_round N) d k =
    match edge_source N k with
    | Some src => if existsb (Z.eqb (edge_round N k)) l then d src else d k
    | None => d k
    end.
Proof.
  intros HN. induction 1 as [|i l Hi Hl IH]; intros d k.
  - simpl. now destruct (edge_source N k).
  - unfold for_each in *. simpl. rewrite IH.
    destruct (edge_source N k) as [src|] eqn:Hsrc.
    + rewrite (boundary_round_interior N i d src HN Hi
                 (edge_source_interior N k src HN Hsrc)).
      rewrite (boundary_round_spec N i d k HN Hi), Hsrc.
      destruct (edge_round N k =? i); simpl;
        now destruct (existsb (Z.eqb (edge_round N k)) l).
    + now rewrite (boundary_round_spec N i d k HN Hi), Hsrc.
Qed.

Lemma Zrange_spec (lo hi k : Z) : In k (Zrange lo hi) <-> lo <= k <= hi.
Proof.
  unfold Zrange. rewrite in_map_iff. split.
  - intros [n [Hn Hin]]. apply in_seq in Hin. lia.
  - intros H. exists (Z.to_nat (k - lo)). split; [lia|].
    apply in_seq. lia.
Qed.

Lemma NoDup_Zrange (lo hi : Z) : NoDup (Zrange lo hi).
Proof.
  unfold Zrange. apply NoDup_map_NoDup_ForallPairs; [|apply seq_NoDup].
  intros a b _ _ Hab. lia.
Qed.

Lemma NoDup_rows (cols rows : list Z) :
  NoDup cols -> NoDup rows ->
  NoDup (flat_map (fun j => map (fun i => mkIndex2 i j) cols) rows).
Proof.
  intros Hcols. induction 1 as [|j rows Hj Hrows IH]; simpl; [constructor|].
  apply NoDup_app.
  - apply NoDup_map_NoDup_ForallPairs; [|exact Hcols].
    intros a b _ _ Hab. now inversion Hab.
  - exact IH.
  - intros k Hk Hk'. apply in_map_iff in Hk. destruct Hk as [i [<- _]].
    apply in_flat_map in Hk'. destruct Hk' as [j' [Hj' Hin]].
    apply in_map_iff in Hin. destruct Hin as [i' [Heq _]].
    inversion Heq. subst j'. contradiction.
Qed.

Lemma Zrange_Forall (lo hi : Z) : Forall (fun i => lo <= i <= hi) (Zrange lo hi).
Proof. apply Forall_forall. intros k. apply Zrange_spec. Qed.

Lemma existsb_Zrange (N k : Z) :
  1 <= k <= N -> existsb (Z.eqb k) (Zrange 1 N) = true.
Proof.
  intros H. apply existsb_exists. exists k. split.
  - now apply Zrange_spec.
  - apply Z.eqb_refl.
Qed.

Lemma edge_round_range (N : Z) (k src : Index2) :
  edge_source N k = Some src -> 1 <= edge_round N k <= N.
Proof.
  destruct k as [x y]. unfold edge_source, edge_round; cbn [ix iy].
  split_cmp; intros Hsrc; try discriminate Hsrc; lia.
Qed.

Lemma boundary_edges_spec (N : Z) (d : GridData) (k : Index2) :
  1 <= N -> for_each (Zrange 1 N) (boundary_round N) d k = edge_value N d k.
Proof.
  intros HN. rewrite (boundary_loop_spec N _ HN (Zrange_Forall 1 N)).
  unfold edge_value. destruct (edge_source N k) as [src|] eqn:Hsrc; [|reflexivity].
  now rewrite (existsb_Zrange N _ (edge_round_range N k src Hsrc)).
Qed.

Lemma boundary_corners_spec (N : Z) (d : GridData) (k : Index2) :
  1 <= N ->
  boundary_corners N d k =
  match corner_neighbours N k with
  | Some (a, b) => ((1#2) * (d a + d b))%Q
  | None => d k
  end.
Proof.
  intros HN. destruct k as [x y].
  unfold boundary_corners, grid_set, corner_neighbours, Index2_eqb; cbn [ix iy].
  split_cmp; reflexivity.
Qed.

(** The boundary condition in closed form. *)
Lemma boundary_data_spec (N : Z) (d : GridData) (k : Index2) :
  1 <= N -> boundary_data N d k = boundary_spec N d k.
Proof.
  intros HN. unfold boundary_data, boundary_spec.
  rewrite (boundary_corners_spec N _ k HN).
  destruct (corner_neighbours N k) as [[a b]|];
    now rewrite ?boundary_edges_spec by assumption.
Qed.

Lemma boundary_spec_interior (N : Z) (d : GridData) (k : Index2) :
  interior N k -> boundary_spec N d k = d k.
Proof.
  intros Hk. unfold boundary_spec, edge_value.
  now rewrite (interior_no_corner N k Hk), (interior_no_edge N k Hk).
Qed.

Lemma boundary_spec_invariant (N : Z) (d : GridData) :
  1 <= N -> ghost_invariant N (boundary_spec N d).
Proof.
  intros HN. unfold ghost_invariant, boundary_spec, edge_value,
    corner_neighbours, edge_source, Index2_eqb; cbn [ix iy].
  split; [intros i Hi; repeat split|repeat split]; split_cmp; reflexivity.
Qed.

Lemma boundary_spec_idempotent (N : Z) (d : GridData) (k : Index2) :
  1 <= N -> boundary_spec N (boundary_spec N d) k = boundary_spec N d k.
Proof.
  intros HN. destruct k as [x y].
  unfold boundary_spec, edge_value, corner_neighbours, edge_source, Index2_eqb;
    cbn [ix iy].
  split_cmp; reflexivity.
Qed.

Lemma boundary_spec_ext (N : Z) (d d' : GridData) (k : Index2) :
  (forall i, d i = d' i) -> boundary_spec N d k = boundary_spec N d' k.
Proof.
  intros Hext. unfold boundary_spec, edge_value.
  destruct (corner_neighbours N k) as [[a b]|].
  - destruct (edge_source N a), (edge_source N b); now rewrite !Hext.
  - destruct (edge_source N k); now rewrite Hext.
Qed.

Lemma boundary_data_idempotent (N : Z) (d : GridData) (k : Index2) :
  1 <= N -> boundary_data N (boundary_data N d) k = boundary_data N d k.
Proof.
  intros HN. rewrite (boundary_data_spec N (boundary_data N d) k HN).
  rewrite (boundary_spec_ext N _ (boundary_spec N d) k)
    by (intros i; now apply boundary_data_spec).
  rewrite boundary_spec_idempotent by assumption.
  symmetry. now apply boundary_data_spec.
Qed.

(** ** Frames of the stages *)

Section Frames.

Context `{E : Collaborators}.

Lemma for_each_invariant {S : Type} (P : S -> Prop) (body : Z -> S -> S)
    (l : list Z) :
  (forall i s, In i l -> P s -> P (body i s)) ->
  forall s, P s -> P (for_each l body s).
Proof.
  unfold for_each. induction l as [|i l IH]; intros Hbody s Hs; simpl.
  - exact Hs.
  - apply IH.
    + intros j s' Hj. apply Hbody. now right.
    + apply Hbody; [now left|exact Hs].
Qed.

Lemma applyBoundaryCondition_frame {A : Type} (f : GridSolver -> A) :
  ignores_density f -> forall s, f (applyBoundaryCondition s) = f s.
Proof. intros Hf s. apply Hf. Qed.

Lemma advectDensity_frame {A : Type} (f : GridSolver -> A) :
  ignores_density f -> forall s idx dt, f (advectDensity s idx dt) = f s.
Proof. intros Hf s idx dt. apply Hf. Qed.

Lemma computeAdvection_frame {A : Type} (f : GridSolver -> A) :
  ignores_density f -> forall s dt, f (computeAdvection s dt) = f s.
Proof.
  intros Hf s dt. unfold computeAdvection, advection_sweep.
  rewrite applyBoundaryCondition_frame by assumption.
  apply (for_each_invariant (fun s' => f s' = f s)); [|reflexivity].
  intros y s1 _ H1.
  apply (for_each_invariant (fun s' => f s' = f s)); [|exact H1].
  intros x s2 _ H2. now rewrite advectDensity_frame.
Qed.

Lemma computeViscosity_frame {A : Type} (f : GridSolver -> A) :
  ignores_density f -> ignores_velocity f ->
  forall s dt, f (computeViscosity s dt) = f s.
Proof.
  intros Hd Hv s dt. unfold computeViscosity.
  destruct (isPositive (_viscosityCoefficient s)); [|reflexivity].
  now rewrite applyBoundaryCondition_frame, Hv.
Qed.

Lemma computePressure_frame {A : Type} (f : GridSolver -> A) :
  ignores_density f -> ignores_velocity f ->
  forall s dt, f (computePressure s dt) = f s.
Proof.
  intros Hd Hv s dt. unfold computePressure.
  now rewrite applyBoundaryCondition_frame, Hv.
Qed.

Lemma updateCollider_frame {A : Type} (f : GridSolver -> A) :
  ignores_collider f -> forall s dt, f (updateCollider s dt) = f s.
Proof.
  intros Hc s dt. unfold updateCollider.
  destruct (_collider s); [apply Hc|reflexivity].
Qed.

Lemma beginAdvanceTimeStep_frame {A : Type} (f : GridSolver -> A) :
  ignores_density f -> ignores_collider f ->
  forall s dt, f (beginAdvanceTimeStep s dt) = f s.
Proof.
  intros Hd Hc s dt.
  unfold beginAdvanceTimeStep, onBeginAdvanceTimeStep, updateEmitter.
  rewrite applyBoundaryCondition_frame by assumption.
  rewrite Hc. now apply updateCollider_frame.
Qed.

Lemma densityStep_frame {A : Type} (f : GridSolver -> A) :
  ignores_density f -> ignores_velocity f ->
  forall s dt, f (densityStep s dt) = f s.
Proof.
  intros Hd Hv s dt. unfold densityStep, computeSource.
  rewrite computeAdvection_frame, computeViscosity_frame by assumption.
  now apply applyBoundaryCondition_frame.
Qed.

Lemma velocityStep_frame {A : Type} (f : GridSolver -> A) :
  ignores_density f -> ignores_velocity f -> ignores_collider f ->
  forall s dt, f (velocityStep s dt) = f s.
Proof.
  intros Hd Hv Hc s dt. unfold velocityStep, endAdvanceTimeStep, onEndAdvanceTimeStep.
  rewrite computeAdvection_frame, computePressure_frame, computeViscosity_frame
    by assumption.
  now apply beginAdvanceTimeStep_frame.
Qed.

Lemma onAdvanceTimeStep_frame {A : Type} (f : GridSolver -> A) :
  ignores_density f -> ignores_velocity f -> ignores_collider f ->
  forall s dt, f (onAdvanceTimeStep s dt) = f s.
Proof.
  intros Hd Hv Hc s dt.
  unfold onAdvanceTimeStep, endAdvanceTimeStep, onEndAdvanceTimeStep.
  rewrite velocityStep_frame, densityStep_frame by assumption.
  now apply beginAdvanceTimeStep_frame.
Qed.

End Frames.

Create HintDb frame.

#[export] Hint Extern 1 (ignores_density _) => (intros ? ?; reflexivity) : frame.
#[export] Hint Extern 1 (ignores_velocity _) => (intros ? ?; reflexivity) : frame.
#[export] Hint Extern 1 (ignores_collider _) => (intros ? ? ? ?; reflexivity) : frame.

(** ** The boundary condition on the solver *)

Section Boundary.

Context `{E : Collaborators}.

Lemma applyBoundaryCondition_ghost (s : GridSolver) :
  1 <= ix (size s) -> ghost_border_ok (applyBoundaryCondition s).
Proof.
  intros HN. unfold ghost_border_ok. cbn.
  destruct (boundary_spec_invariant (ix (size s)) (ddata (_density s)) HN)
    as [Hedge Hcorner].
  unfold ghost_invariant. rewrite !boundary_data_spec by assumption.
  split; [|exact Hcorner].
  intros i Hi. rewrite !boundary_data_spec by assumption. now apply Hedge.
Qed.

Lemma applyBoundaryCondition_interior (s : GridSolver) (idx : Index2) :
  interior (ix (size s)) idx ->
  density_at (applyBoundaryCondition s) idx = density_at s idx.
Proof.
  intros Hidx. unfold density_at. cbn.
  assert (HN : 1 <= ix (size s)) by (unfold interior in Hidx; lia).
  rewrite boundary_data_spec by assumption.
  now apply boundary_spec_interior.
Qed.

(** C9.  The boundary condition writes ghost cells of the density only:
    every interior density cell (indices 1..N on both axes) keeps its
    value, and the velocity field, hence every sample of both component
    arrays, is the one from before. *)
Theorem applyBoundaryCondition_writes_ghost_cells_only
    (s : GridSolver) (idx : Index2) :
  interior (ix (size s)) idx ->
  density_at (applyBoundaryCondition s) idx = density_at s idx /\
  _velocity (applyBoundaryCondition s) = _velocity s /\
  (forall i, velocityAt0 (_velocity (applyBoundaryCondition s)) i
             = velocityAt0 (_velocity s) i) /\
  (forall i, velocityAt1 (_velocity (applyBoundaryCondition s)) i
             = velocityAt1 (_velocity s) i).
Proof.
  intros Hidx. split; [|repeat split].
  now apply applyBoundaryCondition_interior.
Qed.

(** C10.  The boundary condition is idempotent: on a solver with an N x N
    interior, N >= 1, a second application in a row leaves the solver as
    the first one left it; every cell of the density field holds the same
    value. *)
Theorem applyBoundaryCondition_idempotent (s : GridSolver) :
  1 <= ix (size s) ->
  (forall idx, density_at (applyBoundaryCondition (applyBoundaryCondition s)) idx
               = density_at (applyBoundaryCondition s) idx) /\
  _velocity (applyBoundaryCondition (applyBoundaryCondition s))
  = _velocity (applyBoundaryCondition s).
Proof.
  intros HN. split; [|reflexivity].
  intros idx. unfold density_at. cbn.
  now apply boundary_data_idempotent.
Qed.

End Boundary.

(** ** Comparisons *)

Lemma Qlt_bool_true (a b : Q) : Qlt_bool a b = true <-> (a < b)%Q.
Proof.
  unfold Qlt_bool. rewrite negb_true_iff. split.
  - intros H. apply Qnot_le_lt. intros Hle.
    apply Qle_bool_iff in Hle. congruence.
  - intros H. destruct (Qle_bool b a) eqn:Hle; [|reflexivity].
    apply Qle_bool_iff in Hle. exfalso. apply (Qlt_not_le a b); assumption.
Qed.

Lemma Qlt_bool_false (a b : Q) : Qlt_bool a b = false <-> (b <= a)%Q.
Proof.
  unfold Qlt_bool. rewrite negb_false_iff. apply Qle_bool_iff.
Qed.

Lemma math_max_spec (a b : Q) :
  (b < a)%Q /\ math_max a b = a \/ (a <= b)%Q /\ math_max a b = b.
Proof.
  unfold math_max. destruct (Qlt_bool b a) eqn:H.
  - left. split; [now apply Qlt_bool_true|reflexivity].
  - right. split; [now apply Qlt_bool_false|reflexivity].
Qed.

Lemma math_min_spec (a b : Q) :
  (a < b)%Q /\ math_min a b = a \/ (b <= a)%Q /\ math_min a b = b.
Proof.
  unfold math_min. destruct (Qlt_bool a b) eqn:H.
  - left. split; [now apply Qlt_bool_true|reflexivity].
  - right. split; [now apply Qlt_bool_false|reflexivity].
Qed.

Lemma to_int_comp (x y : Q) : (x == y)%Q -> to_int x = to_int y.
Proof.
  intros Hxy. unfold to_int.
  assert (Hb : Qle_bool 0 x = Qle_bool 0 y).
  { destruct (Qle_bool 0 x) eqn:Hx, (Qle_bool 0 y) eqn:Hy; try reflexivity.
    - apply Qle_bool_iff in Hx. rewrite Hxy in Hx.
      apply Qle_bool_iff in Hx. congruence.
    - apply Qle_bool_iff in Hy. rewrite <- Hxy in Hy.
      apply Qle_bool_iff in Hy. congruence. }
  rewrite Hb. destruct (Qle_bool 0 y);
    [now apply Qfloor_comp|now apply Qceiling_comp].
Qed.

Lemma to_int_Z (z : Z) : to_int (inject_Z z) = z.
Proof.
  unfold to_int.
  destruct (Qle_bool 0 (inject_Z z)); [apply Qfloor_Z|apply Qceiling_Z].
Qed.

(** ** The stages of a step *)

Section Stages.

Context `{E : Collaborators}.

Lemma computeViscosity_inviscid (s : GridSolver) (dt : Q) :
  isPositive (_viscosityCoefficient s) = false -> computeViscosity s dt = s.
Proof. intros H. unfold computeViscosity. now rewrite H. Qed.

Lemma not_isPositive (x : Q) :
  (0 < Limits_eps)%Q -> (x <= 0)%Q -> isPositive x = false.
Proof.
  intros Heps Hx. unfold isPositive. apply Qlt_bool_false. lra.
Qed.

Lemma computeAdvection_ghost (s : GridSolver) (dt : Q) :
  1 <= ix (size s) -> ghost_border_ok (computeAdvection s dt).
Proof.
  intros HN. unfold computeAdvection. apply applyBoundaryCondition_ghost.
  unfold size.
  rewrite <- (applyBoundaryCondition_frame _solverSize ltac:(auto with frame)).
  change (applyBoundaryCondition (advection_sweep s dt))
    with (computeAdvection s dt).
  now rewrite (computeAdvection_frame _solverSize ltac:(auto with frame)).
Qed.

Lemma beginAdvanceTimeStep_ghost (s : GridSolver) (dt : Q) :
  1 <= ix (size s) -> ghost_border_ok (beginAdvanceTimeStep s dt).
Proof.
  intros HN. unfold beginAdvanceTimeStep, onBeginAdvanceTimeStep, updateEmitter.
  apply applyBoundaryCondition_ghost. unfold size. cbn [_solverSize].
  now rewrite (updateCollider_frame _solverSize ltac:(auto with frame)).
Qed.

Lemma densityStep_ghost (s : GridSolver) (dt : Q) :
  1 <= ix (size s) -> ghost_border_ok (densityStep s dt).
Proof.
  intros HN. unfold densityStep. apply computeAdvection_ghost. unfold size.
  rewrite (computeViscosity_frame _solverSize) by auto with frame.
  unfold computeSource.
  now rewrite (applyBoundaryCondition_frame _solverSize) by auto with frame.
Qed.

Lemma velocityStep_ghost (s : GridSolver) (dt : Q) :
  1 <= ix (size s) -> ghost_border_ok (velocityStep s dt).
Proof.
  intros HN. unfold velocityStep, endAdvanceTimeStep, onEndAdvanceTimeStep.
  apply computeAdvection_ghost. unfold size.
  rewrite (computePressure_frame _solverSize) by auto with frame.
  rewrite (computeViscosity_frame _solverSize) by auto with frame.
  now rewrite (beginAdvanceTimeStep_frame _solverSize) by auto with frame.
Qed.

Lemma ghost_border_after_stages (s : GridSolver) (dt : Q) :
  1 <= ix (size s) ->
  ghost_border_ok (beginAdvanceTimeStep s dt) /\
  ghost_border_ok (densityStep (beginAdvanceTimeStep s dt) dt) /\
  ghost_border_ok (onAdvanceTimeStep s dt).
Proof.
  intros HN.
  assert (H1 : 1 <= ix (size (beginAdvanceTimeStep s dt))).
  { unfold size.
    now rewrite (beginAdvanceTimeStep_frame _solverSize) by auto with frame. }
  assert (H2 : 1 <= ix (size (densityStep (beginAdvanceTimeStep s dt) dt))).
  { unfold size in *.
    now rewrite (densityStep_frame _solverSize) by auto with frame. }
  split; [|split].
  - now apply beginAdvanceTimeStep_ghost.
  - now apply densityStep_ghost.
  - unfold onAdvanceTimeStep, endAdvanceTimeStep, onEndAdvanceTimeStep.
    now apply velocityStep_ghost.
Qed.

(** C4.  On a solver with an N x N interior, N >= 1, the ghost-border
    invariant of the density holds after each completed stage, whatever the
    state the stage starts from, so in particular after BeginStep, after
    DensityStep and after VelocityStep of one step, and after the step:
    along every edge the ghost cell equals the interior cell next to it, and
    each ghost corner is the mean of the two edge ghost cells next to it. *)
Theorem ghost_border_after_every_stage (s : GridSolver) (dt : Q) :
  1 <= ix (size s) ->
  (ghost_border_ok (beginAdvanceTimeStep s dt) /\
   ghost_border_ok (densityStep s dt) /\
   ghost_border_ok (velocityStep s dt)) /\
  (let s1 := beginAdvanceTimeStep s dt in
   let s2 := densityStep s1 dt in
   let s3 := velocityStep s2 dt in
   ghost_border_ok s1 /\ ghost_border_ok s2 /\ ghost_border_ok s3 /\
   onAdvanceTimeStep s dt = s3).
Proof.
  intros HN.
  destruct (ghost_border_after_stages s dt HN) as [H1 [H2 H3]].
  split.
  - split; [|split].
    + exact H1.
    + now apply densityStep_ghost.
    + now apply velocityStep_ghost.
  - cbv zeta. split; [|split; [|split]].
    + exact H1.
    + exact H2.
    + exact H3.
    + reflexivity.
Qed.

(** C8.  A viscosity argument that is not above zero is stored as exactly
    zero, and with a stored coefficient that is not above zero the
    diffusion stage returns the solver it was given: the velocity field,
    hence every sample of it, is the one from before.  The same holds up to
    the smallest positive representable value. *)
Theorem nonpositive_viscosity_is_clamped_and_skipped
    (s : GridSolver) (viscosity dt : Q) :
  (0 < Limits_eps)%Q ->
  (viscosity <= 0)%Q ->
  _viscosityCoefficient (setViscosityCoefficient s viscosity) = 0%Q /\
  (forall s' : GridSolver,
     (_viscosityCoefficient s' <= 0)%Q ->
     computeViscosity s' dt = s' /\
     _velocity (computeViscosity s' dt) = _velocity s' /\
     forall i,
       velocityAt0 (_velocity (computeViscosity s' dt)) i
       = velocityAt0 (_velocity s') i /\
       velocityAt1 (_velocity (computeViscosity s' dt)) i
       = velocityAt1 (_velocity s') i) /\
  (forall s' : GridSolver,
     (_viscosityCoefficient s' <= Limits_eps)%Q ->
     computeViscosity s' dt = s').
Proof.
  intros Heps Hv. split; [|split].
  - cbn. destruct (math_max_spec viscosity 0) as [[Hlt _]|[_ Heq]];
      [lra|exact Heq].
  - intros s' Hs'.
    rewrite (computeViscosity_inviscid s' dt (not_isPositive _ Heps Hs')).
    repeat split.
  - intros s' Hs'. apply computeViscosity_inviscid.
    unfold isPositive. now apply Qlt_bool_false.
Qed.

End Stages.

(** ** One step *)

Section Step.

Context `{E : Collaborators}.

Lemma beginAdvanceTimeStep_collider (s : GridSolver) (c : Collider) (dt : Q) :
  _collider s = Some c ->
  _collider (beginAdvanceTimeStep s dt)
  = Some (Collider_update c (currentTime s) dt) /\
  collider_updates (beginAdvanceTimeStep s dt)
  = collider_updates s ++ [(currentTime s, dt)].
Proof.
  intros Hc.
  unfold beginAdvanceTimeStep, onBeginAdvanceTimeStep, updateEmitter,
    updateCollider.
  rewrite Hc. split; reflexivity.
Qed.

(** C3.  With a collider attached, one step calls [Collider::update] twice
    with the same arguments, not once: at the beginning of the step and
    again at the beginning of the velocity stage, after the density stage
    has run.  The collider that the pressure projection sees has been
    updated twice. *)
Theorem collider_is_updated_twice_in_a_step
    (s : GridSolver) (c : Collider) (dt : Q) :
  let s' := onAdvanceTimeStep (setCollider s (Some c)) dt in
  collider_updates s'
  = collider_updates s ++ [(currentTime s, dt); (currentTime s, dt)] /\
  _collider s'
  = Some (Collider_update (Collider_update c (currentTime s) dt)
            (currentTime s) dt) /\
  collider_updates (densityStep (beginAdvanceTimeStep (setCollider s (Some c)) dt) dt)
  = collider_updates s ++ [(currentTime s, dt)].
Proof.
  cbv zeta.
  set (s0 := setCollider s (Some c)).
  destruct (beginAdvanceTimeStep_collider s0 c dt eq_refl) as [Hc1 Hl1].
  set (s1 := beginAdvanceTimeStep s0 dt) in *.
  set (s2 := densityStep s1 dt).
  assert (Hc2 : _collider s2 = Some (Collider_update c (currentTime s) dt)).
  { unfold s2. now rewrite (densityStep_frame _collider) by auto with frame. }
  assert (Hl2 : collider_updates s2 = collider_updates s ++ [(currentTime s, dt)]).
  { unfold s2.
    now rewrite (densityStep_frame collider_updates) by auto with frame. }
  assert (Ht2 : currentTime s2 = currentTime s).
  { unfold s2, s1.
    rewrite (densityStep_frame currentTime) by auto with frame.
    now rewrite (beginAdvanceTimeStep_frame currentTime) by auto with frame. }
  destruct (beginAdvanceTimeStep_collider s2 _ dt Hc2) as [Hc3 Hl3].
  rewrite Ht2 in Hc3, Hl3. rewrite Hl2, <- app_assoc in Hl3. cbn [app] in Hl3.
  unfold onAdvanceTimeStep, velocityStep, endAdvanceTimeStep,
    onEndAdvanceTimeStep.
  fold s1. fold s2.
  split; [|split; [|exact Hl2]].
  - rewrite (computeAdvection_frame collider_updates) by auto with frame.
    rewrite (computePressure_frame collider_updates) by auto with frame.
    now rewrite (computeViscosity_frame collider_updates) by auto with frame.
  - rewrite (computeAdvection_frame _collider) by auto with frame.
    rewrite (computePressure_frame _collider) by auto with frame.
    now rewrite (computeViscosity_frame _collider) by auto with frame.
Qed.

Lemma densityStep_frame_inviscid {A : Type} (f : GridSolver -> A)
    (s : GridSolver) (dt : Q) :
  ignores_density f ->
  isPositive (_viscosityCoefficient s) = false ->
  f (densityStep s dt) = f s.
Proof.
  intros Hf Hv. unfold densityStep, computeSource.
  rewrite computeAdvection_frame by assumption.
  rewrite computeViscosity_inviscid.
  - now apply applyBoundaryCondition_frame.
  - now rewrite (applyBoundaryCondition_frame _viscosityCoefficient)
      by auto with frame.
Qed.

(** Without viscosity, the velocity after a step is the pressure
    projection of the velocity before it, whatever the gravity. *)
Lemma onAdvanceTimeStep_velocity_inviscid (s : GridSolver) (dt : Q) :
  isPositive (_viscosityCoefficient s) = false ->
  _velocity (onAdvanceTimeStep s dt)
  = pressure_solve (_velocity s) dt
      (_boundaryConditionSolver (onAdvanceTimeStep s dt)).
Proof.
  intros Hv.
  unfold onAdvanceTimeStep, velocityStep, endAdvanceTimeStep,
    onEndAdvanceTimeStep.
  set (s1 := beginAdvanceTimeStep s dt).
  assert (Hv1 : isPositive (_viscosityCoefficient s1) = false).
  { unfold s1.
    now rewrite (beginAdvanceTimeStep_frame _viscosityCoefficient)
      by auto with frame. }
  set (s2 := densityStep s1 dt).
  set (s3 := beginAdvanceTimeStep s2 dt).
  assert (Hv3 : isPositive (_viscosityCoefficient s3) = false).
  { unfold s3, s2.
    rewrite (beginAdvanceTimeStep_frame _viscosityCoefficient)
      by auto with frame.
    now rewrite (densityStep_frame _viscosityCoefficient) by auto with frame. }
  rewrite (computeViscosity_inviscid s3 dt Hv3).
  rewrite (computeAdvection_frame _velocity) by auto with frame.
  rewrite (computeAdvection_frame _boundaryConditionSolver) by auto with frame.
  unfold computePressure.
  rewrite (applyBoundaryCondition_frame _velocity) by auto with frame.
  rewrite (applyBoundaryCondition_frame _boundaryConditionSolver)
    by auto with frame.
  cbn [with_velocity _velocity _boundaryConditionSolver].
  f_equal. unfold s3.
  rewrite (beginAdvanceTimeStep_frame _velocity) by auto with frame.
  unfold s2.
  rewrite (densityStep_frame_inviscid _velocity s1 dt) by auto with frame.
  unfold s1.
  now rewrite (beginAdvanceTimeStep_frame _velocity) by auto with frame.
Qed.

(** No stage of a step reads the gravity: setting it before the step or
    after it gives the same solver. *)
Lemma for_each_commute {S : Type} (F : S -> S) (body : Z -> S -> S)
    (l : list Z) :
  (forall i s, body i (F s) = F (body i s)) ->
  forall s, for_each l body (F s) = F (for_each l body s).
Proof.
  intros Hbody. unfold for_each.
  induction l as [|i l IH]; intros s; simpl; [reflexivity|].
  now rewrite Hbody, IH.
Qed.

Lemma updateCollider_setGravity (s : GridSolver) (g : vec) (dt : Q) :
  updateCollider (setGravity s g) dt = setGravity (updateCollider s dt) g.
Proof. unfold updateCollider. cbn. now destruct (_collider s). Qed.

Lemma beginAdvanceTimeStep_setGravity (s : GridSolver) (g : vec) (dt : Q) :
  beginAdvanceTimeStep (setGravity s g) dt
  = setGravity (beginAdvanceTimeStep s dt) g.
Proof.
  unfold beginAdvanceTimeStep, onBeginAdvanceTimeStep, updateEmitter.
  now rewrite updateCollider_setGravity.
Qed.

Lemma computeViscosity_setGravity (s : GridSolver) (g : vec) (dt : Q) :
  computeViscosity (setGravity s g) dt = setGravity (computeViscosity s dt) g.
Proof.
  unfold computeViscosity. cbn.
  now destruct (isPositive (_viscosityCoefficient s)).
Qed.

Lemma computeAdvection_setGravity (s : GridSolver) (g : vec) (dt : Q) :
  computeAdvection (setGravity s g) dt = setGravity (computeAdvection s dt) g.
Proof.
  unfold computeAdvection.
  assert (Hsweep : advection_sweep (setGravity s g) dt
                   = setGravity (advection_sweep s dt) g).
  { unfold advection_sweep.
    change (ix (size (setGravity s g))) with (ix (size s)).
    apply (for_each_commute (fun s' => setGravity s' g)). intros y s1.
    apply (for_each_commute (fun s' => setGravity s' g)). intros x s2.
    reflexivity. }
  now rewrite Hsweep.
Qed.

Lemma applyBoundaryCondition_setGravity (s : GridSolver) (g : vec) :
  applyBoundaryCondition (setGravity s g)
  = setGravity (applyBoundaryCondition s) g.
Proof. reflexivity. Qed.

Lemma computePressure_setGravity (s : GridSolver) (g : vec) (dt : Q) :
  computePressure (setGravity s g) dt = setGravity (computePressure s dt) g.
Proof. reflexivity. Qed.

Lemma densityStep_setGravity (s : GridSolver) (g : vec) (dt : Q) :
  densityStep (setGravity s g) dt = setGravity (densityStep s dt) g.
Proof.
  unfold densityStep, computeSource.
  now rewrite applyBoundaryCondition_setGravity, computeViscosity_setGravity,
    computeAdvection_setGravity.
Qed.

Lemma velocityStep_setGravity (s : GridSolver) (g : vec) (dt : Q) :
  velocityStep (setGravity s g) dt = setGravity (velocityStep s dt) g.
Proof.
  unfold velocityStep, endAdvanceTimeStep, onEndAdvanceTimeStep.
  now rewrite beginAdvanceTimeStep_setGravity, computeViscosity_setGravity,
    computePressure_setGravity, computeAdvection_setGravity.
Qed.

Lemma velocity_setGravity (s : GridSolver) (g : vec) :
  _velocity (setGravity s g) = _velocity s.
Proof. reflexivity. Qed.

Lemma onAdvanceTimeStep_setGravity (s : GridSolver) (g : vec) (dt : Q) :
  onAdvanceTimeStep (setGravity s g) dt
  = setGravity (onAdvanceTimeStep s dt) g.
Proof.
  unfold onAdvanceTimeStep, endAdvanceTimeStep, onEndAdvanceTimeStep.
  now rewrite beginAdvanceTimeStep_setGravity, densityStep_setGravity,
    velocityStep_setGravity.
Qed.

(** No stage of a step adds a gravity term.  After one step with gravity
    (0, -9.8), zero viscosity and an interval of 0.01 the
    velocity field is the pressure projection of the velocity before the
    step, so where the projection returns the field it was given every
    velocity-x and every velocity-y sample is unchanged, and it is the
    field that the step gives with any other gravity; the ghost-border
    invariant of the density holds. *)
Theorem step_applies_no_gravity (s : GridSolver) :
  (0 < Limits_eps)%Q ->
  (vx (_gravity s) == 0)%Q -> (vy (_gravity s) == -(98#10))%Q ->
  (_viscosityCoefficient s == 0)%Q ->
  1 <= ix (size s) ->
  let dt := (1#100)%Q in
  let s' := onAdvanceTimeStep s dt in
  _velocity s'
  = pressure_solve (_velocity s) dt (_boundaryConditionSolver s') /\
  (pressure_solve (_velocity s) dt (_boundaryConditionSolver s') = _velocity s ->
   forall i,
     velocityAt0 (_velocity s') i = velocityAt0 (_velocity s) i /\
     velocityAt1 (_velocity s') i = velocityAt1 (_velocity s) i) /\
  (forall g, _velocity (onAdvanceTimeStep (setGravity s g) dt) = _velocity s') /\
  ghost_border_ok s'.
Proof.
  intros Heps _ _ Hvisc HN. cbv zeta.
  assert (Hv : isPositive (_viscosityCoefficient s) = false).
  { apply not_isPositive; [exact Heps|lra]. }
  pose proof (onAdvanceTimeStep_velocity_inviscid s (1#100) Hv) as Hvel.
  split; [exact Hvel|split; [|split]].
  - intros Hid i. rewrite Hvel, Hid. split; reflexivity.
  - intros g. rewrite onAdvanceTimeStep_setGravity.
    apply velocity_setGravity.
  - destruct (ghost_border_after_stages s (1#100) HN) as [_ [_ H3]].
    exact H3.
Qed.

End Step.

(** ** Sub-steps *)

Section SubSteps.

Context `{E : Collaborators}.

(** The conversion to [size_t] of a ceiling floored at 1: the value when
    it is below 2^64, no result otherwise. *)
Lemma to_size_t_ceil_max (x : Q) :
  to_size_t (math_max (std_ceil x) 1)
  = if Z.max (Qceiling x) 1 <? 2 ^ 64
    then Some (Z.to_N (Z.max (Qceiling x) 1)) else None.
Proof.
  unfold to_size_t, std_ceil. cbv zeta.
  assert (Hm : math_max (inject_Z (Qceiling x)) 1
               = inject_Z (Z.max (Qceiling x) 1)).
  { destruct (math_max_spec (inject_Z (Qceiling x)) 1)
      as [[Hlt Heq]|[Hle Heq]]; rewrite Heq.
    - change 1%Q with (inject_Z 1) in *. rewrite <- Zlt_Qlt in Hlt.
      f_equal. lia.
    - change 1%Q with (inject_Z 1) in *. rewrite <- Zle_Qle in Hle.
      f_equal. lia. }
  rewrite Hm, to_int_Z.
  destruct (Z.leb_spec 0 (Z.max (Qceiling x) 1)); [reflexivity|lia].
Qed.

Lemma Qdiv_le_compat_pos (x y m : Q) :
  (0 < m)%Q -> (x <= y)%Q -> (x / m <= y / m)%Q.
Proof.
  intros Hm Hxy. unfold Qdiv. apply Qmult_le_compat_r; [exact Hxy|].
  apply Qlt_le_weak. now apply Qinv_lt_0_compat.
Qed.

(** The clamp of [setMaxCfl] and the initial value keep [_maxCfl] above
    zero. *)
Lemma setMaxCfl_positive (s : GridSolver) (newCfl : Q) :
  (0 < Limits_eps)%Q -> (0 < _maxCfl (setMaxCfl s newCfl))%Q.
Proof.
  intros Heps. cbn.
  destruct (math_max_spec newCfl Limits_eps) as [[Hlt Heq]|[_ Heq]];
    rewrite Heq; lra.
Qed.

Lemma numberOfSubTimeSteps_spec (s : GridSolver) (dt : Q) :
  numberOfSubTimeSteps s dt
  = if Z.max (Qceiling (cfl s dt / _maxCfl s)) 1 <? 2 ^ 64
    then Some (Z.to_N (Z.max (Qceiling (cfl s dt / _maxCfl s)) 1))
    else None.
Proof. unfold numberOfSubTimeSteps. cbv zeta. apply to_size_t_ceil_max. Qed.

(** A returned count is the ceiling of cfl / maxCfl, floored at 1. *)
Lemma numberOfSubTimeSteps_some (s : GridSolver) (dt : Q) (n : N) :
  numberOfSubTimeSteps s dt = Some n ->
  Z.of_N n = Z.max (Qceiling (cfl s dt / _maxCfl s)) 1.
Proof.
  rewrite numberOfSubTimeSteps_spec.
  destruct (Z.ltb_spec (Z.max (Qceiling (cfl s dt / _maxCfl s)) 1) (2 ^ 64));
    [|discriminate].
  intros Heq. injection Heq as <-. lia.
Qed.

(** C5, as the code has it.  With a positive maxCfl, and c the ceiling of
    cfl / maxCfl floored at 1: when c is below 2^64 the sub-step count is c;
    when it is not, the conversion to [size_t] has no result; a returned
    count is at least 1; and with the same maxCfl a larger or equal CFL
    number never gives a smaller returned count. *)
Theorem numberOfSubTimeSteps_ceil_floor_monotone (s : GridSolver) (dt : Q) :
  (0 < _maxCfl s)%Q ->
  let c := Z.max (Qceiling (cfl s dt / _maxCfl s)) 1 in
  (c < 2 ^ 64 -> numberOfSubTimeSteps s dt = Some (Z.to_N c)) /\
  (2 ^ 64 <= c -> numberOfSubTimeSteps s dt = None) /\
  (forall n, numberOfSubTimeSteps s dt = Some n -> (1 <= n)%N) /\
  (forall (s2 : GridSolver) (dt2 : Q) (n n2 : N),
     (_maxCfl s2 == _maxCfl s)%Q ->
     (cfl s dt <= cfl s2 dt2)%Q ->
     numberOfSubTimeSteps s dt = Some n ->
     numberOfSubTimeSteps s2 dt2 = Some n2 ->
     (n <= n2)%N).
Proof.
  intros Hm. cbv zeta. split; [|split; [|split]].
  - intros Hc. rewrite numberOfSubTimeSteps_spec.
    destruct (Z.ltb_spec (Z.max (Qceiling (cfl s dt / _maxCfl s)) 1) (2 ^ 64));
      [reflexivity|lia].
  - intros Hc. rewrite numberOfSubTimeSteps_spec.
    destruct (Z.ltb_spec (Z.max (Qceiling (cfl s dt / _maxCfl s)) 1) (2 ^ 64));
      [lia|reflexivity].
  - intros n Hn. apply numberOfSubTimeSteps_some in Hn. lia.
  - intros s2 dt2 n n2 Hm2 Hcfl Hn Hn2.
    apply numberOfSubTimeSteps_some in Hn.
    apply numberOfSubTimeSteps_some in Hn2.
    assert (Hc : Qceiling (cfl s dt / _maxCfl s)
                 <= Qceiling (cfl s2 dt2 / _maxCfl s2)).
    { apply Qceiling_resp_le. rewrite Hm2. now apply Qdiv_le_compat_pos. }
    lia.
Qed.

End SubSteps.

(** ** The clamped back-trace *)

Section Backtrace.

Context `{E : Collaborators}.

(** The two conditionals that clamp one coordinate. *)
Lemma clamp_between (x lo hi : Q) :
  (lo <= hi)%Q ->
  let y := if Qlt_bool x lo then lo else x in
  let z := if Qlt_bool hi y then hi else y in
  (lo <= z <= hi)%Q.
Proof.
  intros Hlh. cbv zeta.
  destruct (Qlt_bool x lo) eqn:H1;
    [apply Qlt_bool_true in H1|apply Qlt_bool_false in H1];
    match goal with |- context [Qlt_bool ?a ?b] => destruct (Qlt_bool a b) eqn:H2 end;
    try apply Qlt_bool_true in H2; try apply Qlt_bool_false in H2; lra.
Qed.

Lemma clamp_inside (x lo hi : Q) :
  (lo <= x <= hi)%Q ->
  (if Qlt_bool hi (if Qlt_bool x lo then lo else x) then hi
   else if Qlt_bool x lo then lo else x) = x.
Proof.
  intros [Hlo Hhi].
  assert (H1 : Qlt_bool x lo = false) by now apply Qlt_bool_false.
  rewrite H1.
  assert (H2 : Qlt_bool hi x = false) by now apply Qlt_bool_false.
  now rewrite H2.
Qed.

Lemma inject_Z_pred (n : Z) : (inject_Z n == inject_Z (n - 1) + 1)%Q.
Proof.
  replace n with ((n - 1) + 1) at 1 by lia. now rewrite inject_Z_plus.
Qed.

(** One cell inside the bounds, on one axis. *)
Lemma clamp_range (o h : Q) (n : Z) :
  (0 <= h)%Q -> 2 <= n ->
  (o + inject_Z n * h - h == o + inject_Z (n - 1) * h)%Q /\
  (o + h <= o + inject_Z n * h - h)%Q.
Proof.
  intros Hh Hn.
  assert (Heq : (o + inject_Z n * h - h == o + inject_Z (n - 1) * h)%Q).
  { rewrite (inject_Z_pred n). ring. }
  split; [exact Heq|]. rewrite Heq.
  assert (H1 : (0 <= (inject_Z (n - 1) - 1) * h)%Q).
  { apply Qmult_le_0_compat; [|exact Hh].
    assert (inject_Z 1 <= inject_Z (n - 1))%Q by (rewrite <- Zle_Qle; lia).
    change (inject_Z 1) with 1%Q in *. lra. }
  lra.
Qed.

(** Whatever the velocity, the interval and the cell, the point that one
    call of [advectDensity] samples lies on each axis between
    origin + spacing and origin + (size - 1) * spacing. *)
Lemma backtrace_range (s : GridSolver) (idx : Index2) (dt : Q) :
  let g := _density s in
  (0 <= vx (dspacing g))%Q -> (0 <= vy (dspacing g))%Q ->
  2 <= ix (dsize g) -> 2 <= iy (dsize g) ->
  (vx (dorigin g) + vx (dspacing g) <= vx (backtrace s idx dt))%Q /\
  (vx (backtrace s idx dt)
   <= vx (dorigin g) + inject_Z (ix (dsize g) - 1) * vx (dspacing g))%Q /\
  (vy (dorigin g) + vy (dspacing g) <= vy (backtrace s idx dt))%Q /\
  (vy (backtrace s idx dt)
   <= vy (dorigin g) + inject_Z (iy (dsize g) - 1) * vy (dspacing g))%Q.
Proof.
  cbv zeta. intros Hhx Hhy Hsx Hsy.
  destruct (clamp_range (vx (dorigin (_density s))) _ _ Hhx Hsx) as [Hex Hlx].
  destruct (clamp_range (vy (dorigin (_density s))) _ _ Hhy Hsy) as [Hey Hly].
  unfold backtrace. cbv zeta.
  unfold bounds_min, bounds_max, cellSize. cbn [vx vy].
  rewrite <- Hex, <- Hey.
  split; [|split; [|split]];
    first [apply (clamp_between _ _ _ Hlx) | apply (clamp_between _ _ _ Hly)].
Qed.

(** The sweep of [computeAdvection] is [advectDensity] on the cells of
    [sweep_cells], in that order. *)
Lemma fold_left_rows {S : Type} (f : S -> Index2 -> S) (cols rows : list Z)
    (s : S) :
  fold_left f (flat_map (fun y => map (fun x => mkIndex2 x y) cols) rows) s
  = for_each rows (fun y s => for_each cols (fun x s => f s (mkIndex2 x y)) s) s.
Proof.
  assert (Hmap : forall (y : Z) (s0 : S),
            fold_left f (map (fun x => mkIndex2 x y) cols) s0
            = fold_left (fun acc x => f acc (mkIndex2 x y)) cols s0).
  { intros y. induction cols as [|x cols IHc]; intros s0; simpl;
      [reflexivity|apply IHc]. }
  unfold for_each. revert s. induction rows as [|y rows IH]; intros s; simpl.
  - reflexivity.
  - now rewrite fold_left_app, IH, Hmap.
Qed.

Lemma advection_sweep_cells (s : GridSolver) (dt : Q) :
  advection_sweep s dt = advect_cells s (sweep_cells (ix (size s))) dt.
Proof.
  unfold advection_sweep, advect_cells, sweep_cells. cbv zeta.
  now rewrite fold_left_rows.
Qed.

Lemma sweep_cells_spec (N : Z) (idx : Index2) :
  In idx (sweep_cells N) <-> interior N idx.
Proof.
  unfold sweep_cells, interior. rewrite in_flat_map. split.
  - intros [y [Hy Hin]]. apply in_map_iff in Hin. destruct Hin as [x [<- Hx]].
    apply Zrange_spec in Hy. apply Zrange_spec in Hx. cbn. lia.
  - intros [Hx Hy]. exists (iy idx). split; [now apply Zrange_spec|].
    apply in_map_iff. exists (ix idx). split; [now destruct idx|].
    now apply Zrange_spec.
Qed.

Lemma NoDup_sweep_cells (N : Z) : NoDup (sweep_cells N).
Proof. apply NoDup_rows; apply NoDup_Zrange. Qed.

Lemma advect_cells_app (s : GridSolver) (l1 l2 : list Index2) (dt : Q) :
  advect_cells s (l1 ++ l2) dt = advect_cells (advect_cells s l1 dt) l2 dt.
Proof. unfold advect_cells. apply fold_left_app. Qed.

(** The calls of [advectDensity] keep the geometry of the density grid, and
    leave the cells that are not theirs as they were. *)
Lemma advect_cells_geometry (s : GridSolver) (l : list Index2) (dt : Q) :
  dsize (_density (advect_cells s l dt)) = dsize (_density s) /\
  dspacing (_density (advect_cells s l dt)) = dspacing (_density s) /\
  dorigin (_density (advect_cells s l dt)) = dorigin (_density s).
Proof.
  unfold advect_cells. revert s. induction l as [|k l IH]; intros s; simpl.
  - repeat split.
  - destruct (IH (advectDensity s k dt)) as [H1 [H2 H3]].
    rewrite H1, H2, H3. repeat split.
Qed.

Lemma advect_cells_outside (s : GridSolver) (l : list Index2) (dt : Q)
    (k : Index2) :
  ~ In k l -> density_at (advect_cells s l dt) k = density_at s k.
Proof.
  unfold advect_cells. revert s. induction l as [|i l IH]; intros s Hk; simpl.
  - reflexivity.
  - rewrite IH by (intros H; apply Hk; now right).
    unfold density_at, advectDensity. cbn. apply grid_set_neq.
    intros ->. apply Hk. now left.
Qed.

(** C6, as the code has it.  For every velocity field, every interval and
    every interior cell, the sweep of [computeAdvection] writes into the
    cell the density sampled at a point that lies on each axis within
    [origin + spacing, origin + (size - 1) * spacing], where origin, spacing
    and size are those of the density grid (spacing not negative, at least
    two cells per axis): one cell inside its bounds.  The field sampled is
    the density as the cells visited earlier in the sweep have left it:
    those cells hold their new values already, and the other cells the
    values from before the sweep. *)
Theorem backtrace_stays_one_cell_inside
    (s : GridSolver) (idx : Index2) (dt : Q) :
  let g := _density s in
  (0 <= vx (dspacing g))%Q -> (0 <= vy (dspacing g))%Q ->
  2 <= ix (dsize g) -> 2 <= iy (dsize g) ->
  interior (ix (size s)) idx ->
  exists pre post : list Index2,
    sweep_cells (ix (size s)) = pre ++ idx :: post /\
    let before := advect_cells s pre dt in
    let p := backtrace before idx dt in
    density_at (advection_sweep s dt) idx = sample (_density before) p /\
    (forall k, In k pre ->
       density_at before k = density_at (advection_sweep s dt) k) /\
    (forall k, ~ In k pre -> density_at before k = density_at s k) /\
    (vx (dorigin g) + vx (dspacing g) <= vx p)%Q /\
    (vx p <= vx (dorigin g) + inject_Z (ix (dsize g) - 1) * vx (dspacing g))%Q /\
    (vy (dorigin g) + vy (dspacing g) <= vy p)%Q /\
    (vy p <= vy (dorigin g) + inject_Z (iy (dsize g) - 1) * vy (dspacing g))%Q.
Proof.
  cbv zeta. intros Hhx Hhy Hsx Hsy Hidx.
  apply sweep_cells_spec in Hidx.
  destruct (in_split _ _ Hidx) as [pre [post Hsplit]].
  exists pre, post. split; [exact Hsplit|].
  pose proof (NoDup_sweep_cells (ix (size s))) as Hnd.
  rewrite Hsplit in Hnd.
  assert (Hpost : ~ In idx post).
  { apply NoDup_remove_2 in Hnd. intros H. apply Hnd, in_or_app. now right. }
  assert (Hpre : forall k, In k pre -> ~ In k (idx :: post)).
  { intros k Hk Hk'. revert Hnd. clear - Hk Hk'.
    induction pre as [|a pre IH]; [destruct Hk|]. simpl. intros Hnd.
    inversion Hnd as [|? ? Ha Hnd']. subst. destruct Hk as [->|Hk].
    - apply Ha, in_or_app. now right.
    - now apply IH. }
  assert (Hsweep : advection_sweep s dt
                   = advect_cells
                       (advectDensity (advect_cells s pre dt) idx dt) post dt).
  { rewrite advection_sweep_cells, Hsplit, advect_cells_app. reflexivity. }
  split; [|split; [|split]].
  - rewrite Hsweep, advect_cells_outside by exact Hpost.
    unfold density_at, advectDensity. cbn. apply grid_set_eq.
  - intros k Hk. rewrite Hsweep.
    change (advect_cells (advectDensity (advect_cells s pre dt) idx dt) post dt)
      with (advect_cells (advect_cells s pre dt) (idx :: post) dt).
    symmetry. apply advect_cells_outside. now apply Hpre.
  - intros k Hk. now apply advect_cells_outside.
  - destruct (advect_cells_geometry s pre dt) as [H1 [H2 H3]].
    rewrite <- H1, <- H2, <- H3.
    apply backtrace_range; rewrite ?H1, ?H2; assumption.
Qed.

End Backtrace.

(** ** The CFL number *)

Section Cfl.

Context `{E : Collaborators}.

Lemma forEachIndex_spec (size index : Index2) :
  In index (forEachIndex size) <->
  0 <= ix index < ix size /\ 0 <= iy index < iy size.
Proof.
  unfold forEachIndex. rewrite in_flat_map. split.
  - intros [j [Hj Hin]]. apply in_map_iff in Hin. destruct Hin as [i [Hi Hin]].
    apply Zrange_spec in Hj. apply Zrange_spec in Hin. subst index. cbn. lia.
  - intros [Hx Hy]. exists (iy index). split.
    + apply Zrange_spec. lia.
    + apply in_map_iff. exists (ix index). split.
      * now destruct index.
      * apply Zrange_spec. lia.
Qed.

(** A running maximum that starts at [acc]. *)
Lemma fold_max_spec (f : Index2 -> Q) (l : list Index2) (acc : Q) :
  let M := fold_left (fun m i => math_max m (f i)) l acc in
  (acc <= M)%Q /\
  (forall i, In i l -> (f i <= M)%Q) /\
  (M = acc \/ exists i, In i l /\ M = f i).
Proof.
  cbv zeta. revert acc. induction l as [|k l IH]; intros acc; simpl.
  - split; [apply Qle_refl|]. split; [intros i []|now left].
  - destruct (IH (math_max acc (f k))) as [Hacc [Hall Hex]].
    destruct (math_max_spec acc (f k)) as [[Hlt Heq]|[Hle Heq]];
      rewrite Heq in *.
    + split; [exact Hacc|]. split.
      * intros i [Hi|Hi]; [subst i; lra|now apply Hall].
      * destruct Hex as [Hex|[i [Hi Hex]]]; [now left|].
        right. exists i. split; [now right|exact Hex].
    + split; [lra|]. split.
      * intros i [Hi|Hi]; [subst i; exact Hacc|now apply Hall].
      * right. destruct Hex as [Hex|[i [Hi Hex]]].
        -- exists k. split; [now left|exact Hex].
        -- exists i. split; [now right|exact Hex].
Qed.

Lemma cfl_maxVel_spec (s : GridSolver) (dt : Q) :
  (0 <= cfl_maxVel s dt)%Q /\
  (forall i, in_extent (vsize (_velocity s)) i ->
             (Vector_max (advanced_velocity s dt i) <= cfl_maxVel s dt)%Q) /\
  (cfl_maxVel s dt = 0%Q \/
   exists i, in_extent (vsize (_velocity s)) i /\
             cfl_maxVel s dt = Vector_max (advanced_velocity s dt i)).
Proof.
  pose proof (fold_max_spec (fun i => Vector_max (advanced_velocity s dt i))
                (forEachIndex (vsize (_velocity s))) 0) as Hmax.
  cbv zeta in Hmax.
  change (fold_left _ (forEachIndex (vsize (_velocity s))) 0%Q)
    with (cfl_maxVel s dt) in Hmax.
  destruct Hmax as [H0 [Hall Hex]]. split; [exact H0|split].
  - intros i Hi. apply Hall. now apply forEachIndex_spec.
  - destruct Hex as [Hex|[i [Hi Hex]]]; [now left|].
    right. exists i. split; [now apply forEachIndex_spec|exact Hex].
Qed.



End Cfl.

(** ** A fluid at rest *)

Section Rest.

Context `{E : Collaborators}.

Lemma getBarycentric_node (x : Q) (i extent : Z) :
  (x == inject_Z i)%Q -> 0 <= i <= extent - 2 ->
  fst (getBarycentric x extent) = i /\ (snd (getBarycentric x extent) == 0)%Q.
Proof.
  intros Hx Hi. unfold getBarycentric. cbv zeta.
  assert (Hf : Qfloor x = i) by (rewrite Hx; apply Qfloor_Z).
  rewrite Hf.
  destruct (Z.ltb_spec i 0); [lia|].
  destruct (Z.ltb_spec (extent - 2) i); [lia|].
  cbn [fst snd]. split; [reflexivity|]. rewrite Hx. ring.
Qed.

Lemma lerp_start (a b t : Q) : (t == 0)%Q -> (lerp a b t == a)%Q.
Proof. intros Ht. unfold lerp. rewrite Ht. ring. Qed.

(** Sampling at the position of a stored value returns that value. *)
Lemma sample_at_node (g : CellCenteredScalarGrid) (idx : Index2) (p : vec) :
  (0 < vx (dspacing g))%Q -> (0 < vy (dspacing g))%Q ->
  0 <= ix idx <= ix (dsize g) - 2 -> 0 <= iy idx <= iy (dsize g) - 2 ->
  (vx p == vx (dataPosition g idx))%Q -> (vy p == vy (dataPosition g idx))%Q ->
  (sample g p == ddata g idx)%Q.
Proof.
  intros Hhx Hhy Hix Hiy Hpx Hpy. unfold sample.
  assert (Hnx : ((vx p - vx (dataOrigin g)) / vx (cellSize g)
                 == inject_Z (ix idx))%Q).
  { rewrite Hpx. unfold dataPosition, cellSize. cbn [vx]. field.
    intros H0. rewrite H0 in Hhx. now apply (Qlt_irrefl 0). }
  assert (Hny : ((vy p - vy (dataOrigin g)) / vy (cellSize g)
                 == inject_Z (iy idx))%Q).
  { rewrite Hpy. unfold dataPosition, cellSize. cbn [vy]. field.
    intros H0. rewrite H0 in Hhy. now apply (Qlt_irrefl 0). }
  destruct (getBarycentric_node _ _ _ Hnx Hix) as [Hi Hfx].
  destruct (getBarycentric_node _ _ _ Hny Hiy) as [Hj Hfy].
  destruct (getBarycentric _ (ix (dsize g))) as [i fx].
  destruct (getBarycentric _ (iy (dsize g))) as [j fy].
  cbn [fst snd] in *. subst i j.
  rewrite (lerp_start _ _ fy Hfy), (lerp_start _ _ fx Hfx).
  now destruct idx.
Qed.

(** The position of an interior value is one cell inside the bounds. *)
Lemma node_in_range (o h x : Q) (i n : Z) :
  (0 <= h)%Q -> 1 <= i <= n - 1 ->
  (x == o + inject_Z i * h)%Q ->
  (o + h <= x <= o + inject_Z n * h - h)%Q.
Proof.
  intros Hh Hi Hx.
  destruct (clamp_range o h n Hh ltac:(lia)) as [Heq _].
  rewrite Heq, Hx.
  assert (H1 : (0 <= (inject_Z i - 1) * h)%Q).
  { apply Qmult_le_0_compat; [|exact Hh].
    assert (inject_Z 1 <= inject_Z i)%Q by (rewrite <- Zle_Qle; lia).
    change (inject_Z 1) with 1%Q in *. lra. }
  assert (H2 : (inject_Z i * h <= inject_Z (n - 1) * h)%Q).
  { apply Qmult_le_compat_r; [|exact Hh]. rewrite <- Zle_Qle. lia. }
  split; lra.
Qed.

Lemma well_formed_setup (s s' : GridSolver) :
  setup s' = setup s -> well_formed s -> well_formed s'.
Proof.
  unfold setup, well_formed, size. intros Heq. inversion Heq as [[H1 H2 H3]].
  now rewrite H1, H2, H3.
Qed.

(** At rest the back-trace of an interior cell is its own position. *)
Lemma backtrace_at_rest (s : GridSolver) (idx : Index2) (dt : Q) :
  well_formed s -> at_rest (_velocity s) -> interior (ix (size s)) idx ->
  (vx (backtrace s idx dt) == vx (dataPosition (_density s) idx))%Q /\
  (vy (backtrace s idx dt) == vy (dataPosition (_density s) idx))%Q.
Proof.
  intros (HN & Hsq & Hsize & Hhx & Hhy) Hrest (Hx & Hy).
  destruct (Hrest idx) as [Hu Hv].
  unfold backtrace. cbv zeta. cbn [vx vy].
  assert (Hnx : (vx (vec_sub (dataPosition (_density s) idx)
                       (vec_times (mkVec (velocityAt0 (_velocity s) idx)
                                         (velocityAt1 (_velocity s) idx)) dt))
                 == vx (dataPosition (_density s) idx))%Q).
  { cbn [vec_sub vec_times vx vy]. rewrite Hu. ring. }
  assert (Hny : (vy (vec_sub (dataPosition (_density s) idx)
                       (vec_times (mkVec (velocityAt0 (_velocity s) idx)
                                         (velocityAt1 (_velocity s) idx)) dt))
                 == vy (dataPosition (_density s) idx))%Q).
  { cbn [vec_sub vec_times vx vy]. rewrite Hv. ring. }
  rewrite !clamp_inside.
  - split; assumption.
  - unfold bounds_min, bounds_max, cellSize. cbn [vx vy].
    apply (node_in_range _ _ _ (iy idx)); [lra| |].
    + rewrite Hsize. cbn [Index2_add_scalar iy]. lia.
    + rewrite Hny. reflexivity.
  - unfold bounds_min, bounds_max, cellSize. cbn [vx vy].
    apply (node_in_range _ _ _ (ix idx)); [lra| |].
    + rewrite Hsize. cbn [Index2_add_scalar ix]. lia.
    + rewrite Hnx. reflexivity.
Qed.

(** At rest [advectDensity] writes into an interior cell the value it
    holds. *)
Lemma advectDensity_at_rest (s : GridSolver) (idx k : Index2) (dt : Q) :
  well_formed s -> at_rest (_velocity s) -> interior (ix (size s)) idx ->
  (density_at (advectDensity s idx dt) k == density_at s k)%Q.
Proof.
  intros Hwf Hrest Hidx. unfold density_at, advectDensity. cbn.
  unfold grid_set. destruct (Index2_eqb_spec k idx) as [->|_]; [|reflexivity].
  destruct (backtrace_at_rest s idx dt Hwf Hrest Hidx) as [Hpx Hpy].
  destruct Hwf as (HN & Hsq & Hsize & Hhx & Hhy). destruct Hidx as [Hx Hy].
  apply sample_at_node; try assumption.
  - rewrite Hsize. cbn [Index2_add_scalar ix]. lia.
  - rewrite Hsize. cbn [Index2_add_scalar iy]. lia.
Qed.

Lemma advection_sweep_at_rest (s : GridSolver) (dt : Q) :
  well_formed s -> at_rest (_velocity s) ->
  forall k, (density_at (advection_sweep s dt) k == density_at s k)%Q.
Proof.
  intros Hwf Hrest.
  set (P := fun s' : GridSolver =>
              setup s' = setup s /\ _velocity s' = _velocity s /\
              forall k, (density_at s' k == density_at s k)%Q).
  assert (HP : P (advection_sweep s dt)).
  { unfold advection_sweep. apply (for_each_invariant P).
    - intros y s1 Hy H1.
      apply (for_each_invariant P); [|exact H1].
      intros x s2 Hx (Hset & Hvel & Hden).
      apply Zrange_spec in Hx. apply Zrange_spec in Hy.
      assert (Hwf2 : well_formed s2) by now apply (well_formed_setup s).
      assert (Hint : interior (ix (size s2)) (mkIndex2 x y)).
      { assert (Hs : _solverSize s2 = _solverSize s)
          by (unfold setup in Hset; congruence).
        unfold size. rewrite Hs.
        unfold interior. cbn [ix iy]. unfold size in *. lia. }
      split; [|split].
      + now rewrite (advectDensity_frame setup) by auto with frame.
      + now rewrite (advectDensity_frame _velocity) by auto with frame.
      + intros k. rewrite advectDensity_at_rest; try assumption.
        * apply Hden.
        * now rewrite Hvel.
    - split; [reflexivity|split; [reflexivity|intros k; reflexivity]]. }
  apply HP.
Qed.

(** The constructor builds a well-formed solver, and a step keeps it so. *)
Lemma GridSolver_new_well_formed (size : Index2) (spacing origin : vec) :
  1 <= ix size -> iy size = ix size ->
  (0 < vx spacing)%Q -> (0 < vy spacing)%Q ->
  well_formed (GridSolver_new size spacing origin).
Proof.
  intros HN Hsq Hhx Hhy. unfold well_formed. cbn.
  split; [exact HN|split; [exact Hsq|split; [reflexivity|split; assumption]]].
Qed.

Lemma onAdvanceTimeStep_well_formed (s : GridSolver) (dt : Q) :
  well_formed s -> well_formed (onAdvanceTimeStep s dt).
Proof.
  apply well_formed_setup.
  now rewrite (onAdvanceTimeStep_frame setup) by auto with frame.
Qed.

Section Calm.

Variable s0 : GridSolver.

Hypothesis wf0 : well_formed s0.

Hypothesis diffusion_rest :
  forall v viscosity dt b, at_rest v -> at_rest (diffusion_solve v viscosity dt b).

Hypothesis pressure_rest :
  forall v dt b, at_rest v -> at_rest (pressure_solve v dt b).

Lemma calm_frame (s s' : GridSolver) :
  setup s' = setup s ->
  dorigin (_density s') = dorigin (_density s) ->
  at_rest (_velocity s') ->
  (forall k, (density_at s' k == density_at s k)%Q) ->
  calm s0 s -> calm s0 s'.
Proof.
  intros Hset Hor Hvel Hden (Hset0 & Hor0 & _ & Hden0).
  split; [congruence|split; [congruence|split; [exact Hvel|]]].
  intros idx Hidx. rewrite Hden. now apply Hden0.
Qed.

Lemma calm_boundary (s : GridSolver) :
  calm s0 s -> calm s0 (applyBoundaryCondition s).
Proof.
  intros (Hset & Hor & Hvel & Hden).
  split; [|split; [|split]].
  - now rewrite (applyBoundaryCondition_frame setup) by auto with frame.
  - exact Hor.
  - exact Hvel.
  - intros idx Hidx. rewrite applyBoundaryCondition_interior.
    + now apply Hden.
    + unfold size in *. unfold setup in Hset.
      replace (_solverSize s) with (_solverSize s0) by congruence.
      exact Hidx.
Qed.

Lemma calm_begin (s : GridSolver) (dt : Q) :
  calm s0 s -> calm s0 (beginAdvanceTimeStep s dt).
Proof.
  intros Hc.
  unfold beginAdvanceTimeStep, onBeginAdvanceTimeStep, updateEmitter.
  apply calm_boundary. destruct Hc as (Hset & Hor & Hvel & Hden).
  unfold updateCollider. destruct (_collider s);
    (split; [exact Hset|split; [exact Hor|split; [exact Hvel|exact Hden]]]).
Qed.

Lemma calm_viscosity (s : GridSolver) (dt : Q) :
  calm s0 s -> calm s0 (computeViscosity s dt).
Proof.
  intros Hc. unfold computeViscosity.
  destruct (isPositive (_viscosityCoefficient s)); [|exact Hc].
  apply calm_boundary. destruct Hc as (Hset & Hor & Hvel & Hden).
  split; [exact Hset|split; [exact Hor|split; [|exact Hden]]].
  now apply diffusion_rest.
Qed.

Lemma calm_pressure (s : GridSolver) (dt : Q) :
  calm s0 s -> calm s0 (computePressure s dt).
Proof.
  intros Hc. unfold computePressure.
  apply calm_boundary. destruct Hc as (Hset & Hor & Hvel & Hden).
  split; [exact Hset|split; [exact Hor|split; [|exact Hden]]].
  now apply pressure_rest.
Qed.

Lemma calm_advection (s : GridSolver) (dt : Q) :
  calm s0 s -> calm s0 (computeAdvection s dt).
Proof.
  intros Hc. unfold computeAdvection. apply calm_boundary.
  assert (Hwf : well_formed s)
    by (apply (well_formed_setup s0); [apply Hc|exact wf0]).
  assert (Hrest : at_rest (_velocity s)) by apply Hc.
  apply (calm_frame s); [| | | |exact Hc].
  - change (setup (advection_sweep s dt) = setup s).
    rewrite <- (applyBoundaryCondition_frame setup) by auto with frame.
    change (applyBoundaryCondition (advection_sweep s dt))
      with (computeAdvection s dt).
    now rewrite (computeAdvection_frame setup) by auto with frame.
  - rewrite <- (applyBoundaryCondition_frame (fun s => dorigin (_density s)))
      by auto with frame.
    change (applyBoundaryCondition (advection_sweep s dt))
      with (computeAdvection s dt).
    now rewrite (computeAdvection_frame (fun s => dorigin (_density s)))
      by auto with frame.
  - rewrite <- (applyBoundaryCondition_frame _velocity) by auto with frame.
    change (applyBoundaryCondition (advection_sweep s dt))
      with (computeAdvection s dt).
    now rewrite (computeAdvection_frame _velocity) by auto with frame.
  - now apply advection_sweep_at_rest.
Qed.

Lemma calm_step (dt : Q) :
  at_rest (_velocity s0) -> calm s0 (onAdvanceTimeStep s0 dt).
Proof.
  intros Hrest.
  assert (H0 : calm s0 s0).
  { split; [reflexivity|split; [reflexivity|split; [exact Hrest|]]].
    intros idx _. reflexivity. }
  unfold onAdvanceTimeStep, velocityStep, densityStep, computeSource,
    endAdvanceTimeStep, onEndAdvanceTimeStep.
  apply calm_advection, calm_pressure, calm_viscosity, calm_begin.
  apply calm_advection, calm_viscosity, calm_boundary, calm_begin.
  exact H0.
Qed.

End Calm.

(** C7.  On a well-formed solver (N x N interior, N >= 1, positive spacing)
    whose velocity is zero everywhere and whose gravity is zero, with a
    diffusion and a projection that return a field at rest for a field at
    rest, one step leaves the value of every interior density cell as it
    was; the ghost border satisfies the edge-copy and corner-mean rule. *)
Theorem step_at_rest_keeps_interior_density (s : GridSolver) (dt : Q) :
  well_formed s ->
  at_rest (_velocity s) ->
  (vx (_gravity s) == 0)%Q -> (vy (_gravity s) == 0)%Q ->
  (forall v viscosity dt b,
     at_rest v -> at_rest (diffusion_solve v viscosity dt b)) ->
  (forall v dt b, at_rest v -> at_rest (pressure_solve v dt b)) ->
  (forall idx, interior (ix (size s)) idx ->
     (density_at (onAdvanceTimeStep s dt) idx == density_at s idx)%Q) /\
  ghost_border_ok (onAdvanceTimeStep s dt).
Proof.
  intros Hwf Hrest _ _ Hdiff Hpress. split.
  - apply (calm_step s Hwf Hdiff Hpress dt Hrest).
  - destruct Hwf as [HN _].
    destruct (ghost_border_after_stages s dt HN) as [_ [_ H3]]. exact H3.
Qed.

End Rest.

(** * The claims on concrete solvers *)

(** C1.  The code in the scenario of the claim: on the constructed 2 x 2
    solver, with the default gravity (0, -9.8), zero viscosity and no
    collider, the velocity-y sample of the interior cell (1,1) after a step
    of 0.01 is the one from before the step; it has not dropped by 0.098,
    nor by that up to 0.001.  [velocityStep] does not call
    [computeExternalForces]; that function, called on the same solver with
    the same interval, does lower the sample by 0.098 and leaves the
    velocity-x sample as it was. *)
Lemma step_misses_gravity_on_solver_2x2 :
  let s := solver_2x2 in
  let s' := onAdvanceTimeStep s (1#100) in
  _gravity s = mkVec 0 (-(98#10)) /\
  _viscosityCoefficient s = 0%Q /\
  interior (ix (size s)) (mkIndex2 1 1) /\
  (velocityAt1 (_velocity s') (mkIndex2 1 1)
   == velocityAt1 (_velocity s) (mkIndex2 1 1))%Q /\
  ~ (Qabs (velocityAt1 (_velocity s') (mkIndex2 1 1)
           - (velocityAt1 (_velocity s) (mkIndex2 1 1) - (98#1000)))
     <= 1#1000)%Q /\
  (velocityAt1 (_velocity (computeExternalForces s (1#100))) (mkIndex2 1 1)
   == velocityAt1 (_velocity s) (mkIndex2 1 1) - (98#1000))%Q /\
  (velocityAt0 (_velocity (computeExternalForces s (1#100))) (mkIndex2 1 1)
   == velocityAt0 (_velocity s) (mkIndex2 1 1))%Q.
Proof.
  cbv zeta.
  split; [reflexivity|split; [reflexivity|split; [|split; [|split; [|split]]]]].
  - unfold interior. cbn. lia.
  - vm_compute. reflexivity.
  - intros H. apply Qle_bool_iff in H. vm_compute in H. discriminate H.
  - vm_compute. reflexivity.
  - vm_compute. reflexivity.
Qed.

Lemma step_applies_no_gravity_witness :
  (0 < @Limits_eps still_fluid)%Q /\
  (vx (_gravity solver_2x2) == 0)%Q /\
  (vy (_gravity solver_2x2) == -(98#10))%Q /\
  (_viscosityCoefficient solver_2x2 == 0)%Q /\
  1 <= ix (size solver_2x2) /\
  _velocity (onAdvanceTimeStep solver_2x2 (1#100))
  = _velocity solver_2x2 /\
  ghost_border_ok (onAdvanceTimeStep solver_2x2 (1#100)).
Proof.
  assert (H1 : (0 < @Limits_eps still_fluid)%Q) by reflexivity.
  assert (H2 : (vx (_gravity solver_2x2) == 0)%Q) by reflexivity.
  assert (H3 : (vy (_gravity solver_2x2) == -(98#10))%Q) by reflexivity.
  assert (H4 : (_viscosityCoefficient solver_2x2 == 0)%Q) by reflexivity.
  assert (H5 : 1 <= ix (size solver_2x2)) by (cbn; lia).
  destruct (step_applies_no_gravity solver_2x2 H1 H2 H3 H4 H5)
    as [Hv [_ [_ Hg]]].
  exact (conj H1 (conj H2 (conj H3 (conj H4 (conj H5 (conj Hv Hg)))))).
Defined.


Lemma ghost_border_after_every_stage_witness :
  1 <= ix (size solver_4x4) /\
  ghost_border_ok (beginAdvanceTimeStep solver_4x4 (1#10)) /\
  ghost_border_ok (densityStep solver_4x4 (1#10)) /\
  ghost_border_ok (velocityStep solver_4x4 (1#10)).
Proof.
  assert (HN : 1 <= ix (size solver_4x4)) by (cbn; lia).
  split; [exact HN|].
  exact (proj1 (ghost_border_after_every_stage solver_4x4 (1#10) HN)).
Defined.

(** C5 as stated fails: on the constructed 2 x 2 solver with gravity
    (0, -1), after [setMaxCfl(0)] has stored the smallest positive value
    2^-126, and an interval of 1, the CFL number is 1 and the ceiling of
    cfl / maxCfl is 2^126, which is no [size_t]: the conversion has no
    result, and no count of at least 1 is returned. *)
Lemma numberOfSubTimeSteps_counterexample :
  let s := setMaxCfl (setGravity solver_2x2 (mkVec 0 (-(1)))) 0 in
  (0 < _maxCfl s)%Q /\
  (cfl s 1 == 1)%Q /\
  Z.max (Qceiling (cfl s 1 / _maxCfl s)) 1 = 2 ^ 126 /\
  numberOfSubTimeSteps s 1 = None /\
  numberOfSubTimeSteps s 1
  <> Some (Z.to_N (Z.max (Qceiling (cfl s 1 / _maxCfl s)) 1)).
Proof.
  cbv zeta. split; [reflexivity|split; [|split; [|split]]].
  - vm_compute. reflexivity.
  - vm_compute. reflexivity.
  - vm_compute. reflexivity.
  - vm_compute. discriminate.
Qed.

(** The constructed 2 x 2 solver: with an interval of 1 the CFL number is
    9.8 and two sub-steps are taken; with an interval of 2 it is 39.2 and
    eight are taken. *)
Lemma numberOfSubTimeSteps_witness :
  (0 < _maxCfl solver_2x2)%Q /\
  (cfl solver_2x2 1 == 98#10)%Q /\
  (cfl solver_2x2 2 == 392#10)%Q /\
  numberOfSubTimeSteps solver_2x2 1 = Some 2%N /\
  numberOfSubTimeSteps solver_2x2 2 = Some 8%N /\
  (2 <= 8)%N.
Proof.
  assert (Hm : (0 < _maxCfl solver_2x2)%Q) by reflexivity.
  assert (H1 : (cfl solver_2x2 1 == 98#10)%Q) by (vm_compute; reflexivity).
  assert (H2 : (cfl solver_2x2 2 == 392#10)%Q) by (vm_compute; reflexivity).
  assert (Hc : Z.max (Qceiling (cfl solver_2x2 1 / _maxCfl solver_2x2)) 1
               < 2 ^ 64) by (vm_compute; reflexivity).
  assert (Hc2 : Z.max (Qceiling (cfl solver_2x2 2 / _maxCfl solver_2x2)) 1
                < 2 ^ 64) by (vm_compute; reflexivity).
  assert (Hmm : (_maxCfl solver_2x2 == _maxCfl solver_2x2)%Q) by reflexivity.
  assert (Hle : (cfl solver_2x2 1 <= cfl solver_2x2 2)%Q)
    by (vm_compute; discriminate).
  destruct (numberOfSubTimeSteps_ceil_floor_monotone solver_2x2 1 Hm)
    as [A1 [_ [_ A4]]].
  assert (E1 : numberOfSubTimeSteps solver_2x2 1 = Some 2%N)
    by exact (A1 Hc <: numberOfSubTimeSteps solver_2x2 1 = Some 2%N).
  assert (E2 : numberOfSubTimeSteps solver_2x2 2 = Some 8%N)
    by (vm_compute; reflexivity).
  exact (conj Hm (conj H1 (conj H2 (conj E1 (conj E2
    (A4 solver_2x2 2%Q 2%N 8%N Hmm Hle E1 E2)))))).
Defined.

(** C6 as stated fails on the stirred 2 x 2 solver with an interval of 1.
    The claimed interval is [0, 1] on each axis.  For the interior cell
    (2,2) the sampled point has x = 2, the position of the ghost cell
    (3,2), and the value written is the 7 that this ghost cell holds.  For
    the interior cell (2,1) the sampled point is (0,0), the position of
    cell (1,1); the density there before the sweep is 1, but the sweep
    writes 2, the value it has put into cell (1,1) just before. *)
Lemma backtrace_counterexample :
  let s := solver_2x2_stirred in
  let g := _density s in
  interior (ix (size s)) (mkIndex2 2 2) /\
  interior (ix (size s)) (mkIndex2 2 1) /\
  (vx (dorigin g) + inject_Z (ix (dsize g) - 2) * vx (dspacing g) == 1)%Q /\
  (vx (backtrace s (mkIndex2 2 2) 1) == 2)%Q /\
  ~ (vx (backtrace s (mkIndex2 2 2) 1)
     <= vx (dorigin g) + inject_Z (ix (dsize g) - 2) * vx (dspacing g))%Q /\
  (vx (backtrace s (mkIndex2 2 2) 1)
   == vx (dataPosition g (mkIndex2 3 2)))%Q /\
  (density_at (advection_sweep s 1) (mkIndex2 2 2)
   == density_at s (mkIndex2 3 2))%Q /\
  (sample g (backtrace s (mkIndex2 2 1) 1) == 1)%Q /\
  (density_at (advection_sweep s 1) (mkIndex2 2 1) == 2)%Q.
Proof.
  cbv zeta.
  split; [unfold interior; cbn; lia|].
  split; [unfold interior; cbn; lia|].
  split; [vm_compute; reflexivity|].
  split; [vm_compute; reflexivity|].
  split; [intros H; apply Qle_bool_iff in H; vm_compute in H; discriminate H|].
  split; [vm_compute; reflexivity|].
  split; [vm_compute; reflexivity|].
  split; vm_compute; reflexivity.
Qed.

(** The stirred 2 x 2 solver and the interior cell (2,2), whose back-trace
    leaves the grid at x = 1001 and is clamped to x = 2. *)
Lemma backtrace_witness :
  let s := solver_2x2_stirred in
  let g := _density s in
  (0 <= vx (dspacing g))%Q /\ (0 <= vy (dspacing g))%Q /\
  2 <= ix (dsize g) /\ 2 <= iy (dsize g) /\
  interior (ix (size s)) (mkIndex2 2 2) /\
  (vx (dataPosition g (mkIndex2 2 2))
   - velocityAt0 (_velocity s) (mkIndex2 2 2) * 1 == 1001)%Q /\
  exists pre post : list Index2,
    sweep_cells (ix (size s)) = pre ++ mkIndex2 2 2 :: post /\
    let before := advect_cells s pre 1 in
    let p := backtrace before (mkIndex2 2 2) 1 in
    density_at (advection_sweep s 1) (mkIndex2 2 2)
    = sample (_density before) p /\
    (forall k, In k pre ->
       density_at before k = density_at (advection_sweep s 1) k) /\
    (forall k, ~ In k pre -> density_at before k = density_at s k) /\
    (vx (dorigin g) + vx (dspacing g) <= vx p)%Q /\
    (vx p <= vx (dorigin g) + inject_Z (ix (dsize g) - 1) * vx (dspacing g))%Q /\
    (vy (dorigin g) + vy (dspacing g) <= vy p)%Q /\
    (vy p <= vy (dorigin g) + inject_Z (iy (dsize g) - 1) * vy (dspacing g))%Q.
Proof.
  cbv zeta.
  assert (H1 : (0 <= vx (dspacing (_density solver_2x2_stirred)))%Q)
    by (vm_compute; discriminate).
  assert (H2 : (0 <= vy (dspacing (_density solver_2x2_stirred)))%Q)
    by (vm_compute; discriminate).
  assert (H3 : 2 <= ix (dsize (_density solver_2x2_stirred))) by (cbn; lia).
  assert (H4 : 2 <= iy (dsize (_density solver_2x2_stirred))) by (cbn; lia).
  assert (H5 : interior (ix (size solver_2x2_stirred)) (mkIndex2 2 2))
    by (unfold interior; cbn; lia).
  assert (H6 : (vx (dataPosition (_density solver_2x2_stirred) (mkIndex2 2 2))
                - velocityAt0 (_velocity solver_2x2_stirred) (mkIndex2 2 2) * 1
                == 1001)%Q) by (vm_compute; reflexivity).
  exact (conj H1 (conj H2 (conj H3 (conj H4 (conj H5 (conj H6
    (backtrace_stays_one_cell_inside solver_2x2_stirred (mkIndex2 2 2) 1
       H1 H2 H3 H4 H5))))))).
Defined.

Lemma solver_4x4_well_formed : well_formed solver_4x4.
Proof.
  unfold well_formed. cbn.
  split; [lia|split; [reflexivity|split; [reflexivity|split; reflexivity]]].
Defined.

Lemma solver_4x4_at_rest : at_rest (_velocity solver_4x4).
Proof. intros i. split; reflexivity. Defined.

(** The 4 x 4 scenario: zero velocity, zero gravity, one step of 0.1. *)
Lemma step_at_rest_witness :
  let s := setGravity solver_4x4 (mkVec 0 0) in
  well_formed s /\ at_rest (_velocity s) /\
  (forall idx, interior (ix (size s)) idx ->
     (density_at (onAdvanceTimeStep s (1#10)) idx == density_at s idx)%Q) /\
  ghost_border_ok (onAdvanceTimeStep s (1#10)).
Proof.
  cbv zeta.
  split; [exact solver_4x4_well_formed|split; [exact solver_4x4_at_rest|]].
  apply (step_at_rest_keeps_interior_density
           (setGravity solver_4x4 (mkVec 0 0)) (1#10)
           solver_4x4_well_formed solver_4x4_at_rest).
  - reflexivity.
  - reflexivity.
  - intros v viscosity dt b Hv. exact Hv.
  - intros v dt b Hv. exact Hv.
Defined.

Lemma nonpositive_viscosity_witness :
  (0 < @Limits_eps still_fluid)%Q /\ (-(1#2) <= 0)%Q /\
  _viscosityCoefficient (setViscosityCoefficient solver_2x2 (-(1#2))) = 0%Q.
Proof.
  assert (H1 : (0 < @Limits_eps still_fluid)%Q) by reflexivity.
  assert (H2 : (-(1#2) <= 0)%Q) by (vm_compute; discriminate).
  split; [exact H1|split; [exact H2|]].
  exact (proj1
    (nonpositive_viscosity_is_clamped_and_skipped solver_2x2 (-(1#2)) (1#10)
       H1 H2)).
Defined.

Lemma applyBoundaryCondition_frame_witness :
  interior (ix (size solver_4x4)) (mkIndex2 1 3) /\
  density_at (applyBoundaryCondition solver_4x4) (mkIndex2 1 3)
  = density_at solver_4x4 (mkIndex2 1 3).
Proof.
  assert (H : interior (ix (size solver_4x4)) (mkIndex2 1 3))
    by (unfold interior; cbn; lia).
  split; [exact H|].
  exact (proj1
    (applyBoundaryCondition_writes_ghost_cells_only solver_4x4 (mkIndex2 1 3) H)).
Defined.

Lemma applyBoundaryCondition_idempotent_witness :
  1 <= ix (size solver_4x4) /\
  density_at (applyBoundaryCondition (applyBoundaryCondition solver_4x4))
    (mkIndex2 0 3)
  = density_at (applyBoundaryCondition solver_4x4) (mkIndex2 0 3).
Proof.
  assert (HN : 1 <= ix (size solver_4x4)) by (cbn; lia).
  split; [exact HN|].
  exact (proj1 (applyBoundaryCondition_idempotent solver_4x4 HN) (mkIndex2 0 3)).
Defined.

(** * Further properties of the solver *)

Lemma boundary_spec_ring (N : Z) (d1 d2 : GridData) (k : Index2) :
  1 <= N ->
  (forall i, interior N i -> d1 i = d2 i) ->
  ghost_cell N k \/ interior N k ->
  boundary_spec N d1 k = boundary_spec N d2 k.
Proof.
  intros HN Hint Hk. destruct k as [x y].
  unfold ghost_cell, interior in Hk. cbn [ix iy] in Hk.
  unfold boundary_spec, edge_value, corner_neighbours, edge_source, Index2_eqb;
    cbn [ix iy].
  split_cmp; rewrite ?Hint; try reflexivity; unfold interior; cbn [ix iy]; lia.
Qed.

Section Confinement.

Context `{E : Collaborators}.

(** X2.  The ring after the boundary condition depends on the interior
    only: two solvers of the same size N >= 1 whose densities agree on the
    interior agree, after the boundary condition, on the whole
    (N+2) x (N+2) index space, whatever their ghost cells held. *)
Theorem applyBoundaryCondition_ring_from_interior
    (s1 s2 : GridSolver) (idx : Index2) :
  1 <= ix (size s1) ->
  size s2 = size s1 ->
  (forall i, interior (ix (size s1)) i -> density_at s1 i = density_at s2 i) ->
  ghost_cell (ix (size s1)) idx \/ interior (ix (size s1)) idx ->
  density_at (applyBoundaryCondition s1) idx
  = density_at (applyBoundaryCondition s2) idx.
Proof.
  intros HN Hsize Hint Hidx. unfold density_at. cbn. rewrite Hsize.
  rewrite !boundary_data_spec by assumption.
  now apply boundary_spec_ring.
Qed.

Lemma advection_sweep_outside (s : GridSolver) (dt : Q) (k : Index2) :
  ~ interior (ix (size s)) k ->
  density_at (advection_sweep s dt) k = density_at s k.
Proof.
  intros Hk. unfold advection_sweep.
  apply (for_each_invariant
           (fun s' : GridSolver => density_at s' k = density_at s k));
    [|reflexivity].
  intros y s1 Hy H1.
  apply (for_each_invariant
           (fun s' : GridSolver => density_at s' k = density_at s k));
    [|exact H1].
  intros x s2 Hx H2. apply Zrange_spec in Hx. apply Zrange_spec in Hy.
  unfold density_at, advectDensity. cbn. rewrite grid_set_neq; [exact H2|].
  intros ->. apply Hk. unfold interior. cbn [ix iy]. lia.
Qed.

(** X3.  The sweep of the advection stage leaves every ghost cell as it
    was: the ghost ring is written by the boundary condition that follows
    the sweep, not by [advectDensity]; and the whole stage leaves the
    velocity as it was. *)
Theorem computeAdvection_writes_inside_only
    (s : GridSolver) (dt : Q) (idx : Index2) :
  ghost_cell (ix (size s)) idx ->
  density_at (advection_sweep s dt) idx = density_at s idx /\
  _velocity (computeAdvection s dt) = _velocity s.
Proof.
  intros Hidx. split.
  - apply advection_sweep_outside.
    unfold ghost_cell in Hidx. unfold interior. lia.
  - now rewrite (computeAdvection_frame _velocity) by auto with frame.
Qed.

End Confinement.

(** ** What a step keeps, and how its stages compose *)

Section Composition.

Context `{E : Collaborators}.

(** X4.  A step changes no setting of the solver: the size, the gravity,
    the viscosity coefficient, the maximal CFL number, the current time and
    the size, spacing and origin of the density grid are after the step what
    they were before it. *)
Theorem onAdvanceTimeStep_keeps_settings (s : GridSolver) (dt : Q) :
  let s' := onAdvanceTimeStep s dt in
  _solverSize s' = _solverSize s /\
  _gravity s' = _gravity s /\
  _viscosityCoefficient s' = _viscosityCoefficient s /\
  _maxCfl s' = _maxCfl s /\
  currentTime s' = currentTime s /\
  dsize (_density s') = dsize (_density s) /\
  dspacing (_density s') = dspacing (_density s) /\
  dorigin (_density s') = dorigin (_density s).
Proof.
  cbv zeta.
  rewrite (onAdvanceTimeStep_frame _solverSize) by auto with frame.
  rewrite (onAdvanceTimeStep_frame _gravity) by auto with frame.
  rewrite (onAdvanceTimeStep_frame _viscosityCoefficient) by auto with frame.
  rewrite (onAdvanceTimeStep_frame _maxCfl) by auto with frame.
  rewrite (onAdvanceTimeStep_frame currentTime) by auto with frame.
  rewrite (onAdvanceTimeStep_frame (fun s => dsize (_density s)))
    by auto with frame.
  rewrite (onAdvanceTimeStep_frame (fun s => dspacing (_density s)))
    by auto with frame.
  rewrite (onAdvanceTimeStep_frame (fun s => dorigin (_density s)))
    by auto with frame.
  repeat split.
Qed.

Lemma beginAdvanceTimeStep_no_collider (s : GridSolver) (dt : Q) :
  _collider s = None ->
  _collider (beginAdvanceTimeStep s dt) = None /\
  collider_updates (beginAdvanceTimeStep s dt) = collider_updates s.
Proof.
  intros Hc.
  unfold beginAdvanceTimeStep, onBeginAdvanceTimeStep, updateEmitter,
    updateCollider.
  rewrite Hc. cbn. rewrite Hc. split; reflexivity.
Qed.

(** X5.  Without a collider ([_collider] null), neither [initialize] nor a
    step calls [Collider::update]: [initialize] returns the solver as it
    is, and after a step the collider is still null and the record of
    update calls is the one from before. *)
Theorem no_collider_no_update (s : GridSolver) (dt : Q) :
  _collider s = None ->
  initialize s = s /\
  _collider (onAdvanceTimeStep s dt) = None /\
  collider_updates (onAdvanceTimeStep s dt) = collider_updates s.
Proof.
  intros Hc. split.
  - unfold initialize, updateEmitter, updateCollider. now rewrite Hc.
  - destruct (beginAdvanceTimeStep_no_collider s dt Hc) as [Hc1 Hl1].
    set (s1 := beginAdvanceTimeStep s dt) in *.
    set (s2 := densityStep s1 dt).
    assert (Hc2 : _collider s2 = None).
    { unfold s2. now rewrite (densityStep_frame _collider) by auto with frame. }
    assert (Hl2 : collider_updates s2 = collider_updates s).
    { unfold s2.
      now rewrite (densityStep_frame collider_updates) by auto with frame. }
    destruct (beginAdvanceTimeStep_no_collider s2 dt Hc2) as [Hc3 Hl3].
    unfold onAdvanceTimeStep, velocityStep, endAdvanceTimeStep,
      onEndAdvanceTimeStep.
    fold s1. fold s2. split.
    + rewrite (computeAdvection_frame _collider) by auto with frame.
      rewrite (computePressure_frame _collider) by auto with frame.
      now rewrite (computeViscosity_frame _collider) by auto with frame.
    + rewrite (computeAdvection_frame collider_updates) by auto with frame.
      rewrite (computePressure_frame collider_updates) by auto with frame.
      rewrite (computeViscosity_frame collider_updates) by auto with frame.
      congruence.
Qed.

Lemma computeViscosity_viscous (s : GridSolver) (dt : Q) :
  isPositive (_viscosityCoefficient s) = true ->
  _velocity (computeViscosity s dt)
  = diffusion_solve (_velocity s) (_viscosityCoefficient s) dt
      (_boundaryConditionSolver s) /\
  _boundaryConditionSolver (computeViscosity s dt) = _boundaryConditionSolver s.
Proof.
  intros Hv. unfold computeViscosity. rewrite Hv. split; reflexivity.
Qed.

(** X6.  With a positive viscosity coefficient, a step diffuses the
    velocity twice and projects it once: the density stage runs the
    diffusion solver on the velocity with the collider as rasterized at the
    beginning of the step, the velocity stage runs it again on the result
    with the collider as rasterized anew, and the pressure solver gets that
    second result.  The velocity after the density stage is already the
    diffused one. *)
Theorem viscous_step_diffuses_twice (s : GridSolver) (dt : Q) :
  isPositive (_viscosityCoefficient s) = true ->
  let nu := _viscosityCoefficient s in
  let b1 := _boundaryConditionSolver (beginAdvanceTimeStep s dt) in
  let b2 := _boundaryConditionSolver (onAdvanceTimeStep s dt) in
  let v1 := diffusion_solve (_velocity s) nu dt b1 in
  _velocity (densityStep (beginAdvanceTimeStep s dt) dt) = v1 /\
  _velocity (onAdvanceTimeStep s dt)
  = pressure_solve (diffusion_solve v1 nu dt b2) dt b2.
Proof.
  intros Hv. cbv zeta.
  set (s1 := beginAdvanceTimeStep s dt).
  assert (Hnu1 : _viscosityCoefficient s1 = _viscosityCoefficient s).
  { unfold s1.
    now rewrite (beginAdvanceTimeStep_frame _viscosityCoefficient)
      by auto with frame. }
  assert (Hvel1 : _velocity s1 = _velocity s).
  { unfold s1.
    now rewrite (beginAdvanceTimeStep_frame _velocity) by auto with frame. }
  set (s1' := computeSource s1 dt).
  assert (Hs1' : isPositive (_viscosityCoefficient s1') = true).
  { unfold s1', computeSource.
    rewrite (applyBoundaryCondition_frame _viscosityCoefficient)
      by auto with frame.
    now rewrite Hnu1. }
  destruct (computeViscosity_viscous s1' dt Hs1') as [Hd1 _].
  assert (Hvel2 : _velocity (densityStep s1 dt)
                  = diffusion_solve (_velocity s) (_viscosityCoefficient s) dt
                      (_boundaryConditionSolver s1)).
  { unfold densityStep. fold s1'.
    rewrite (computeAdvection_frame _velocity) by auto with frame.
    rewrite Hd1. unfold s1', computeSource.
    rewrite (applyBoundaryCondition_frame _velocity) by auto with frame.
    rewrite (applyBoundaryCondition_frame _viscosityCoefficient)
      by auto with frame.
    rewrite (applyBoundaryCondition_frame _boundaryConditionSolver)
      by auto with frame.
    now rewrite Hnu1, Hvel1. }
  split; [exact Hvel2|].
  unfold onAdvanceTimeStep, velocityStep, endAdvanceTimeStep,
    onEndAdvanceTimeStep.
  fold s1. set (s2 := densityStep s1 dt) in *.
  set (s3 := beginAdvanceTimeStep s2 dt).
  assert (Hnu3 : _viscosityCoefficient s3 = _viscosityCoefficient s).
  { unfold s3, s2.
    rewrite (beginAdvanceTimeStep_frame _viscosityCoefficient)
      by auto with frame.
    rewrite (densityStep_frame _viscosityCoefficient) by auto with frame.
    exact Hnu1. }
  assert (Hvel3 : _velocity s3 = _velocity s2).
  { unfold s3.
    now rewrite (beginAdvanceTimeStep_frame _velocity) by auto with frame. }
  assert (Hs3 : isPositive (_viscosityCoefficient s3) = true)
    by now rewrite Hnu3.
  destruct (computeViscosity_viscous s3 dt Hs3) as [Hd3 Hb3].
  rewrite (computeAdvection_frame _velocity) by auto with frame.
  rewrite (computeAdvection_frame _boundaryConditionSolver) by auto with frame.
  unfold computePressure.
  rewrite (applyBoundaryCondition_frame _velocity) by auto with frame.
  rewrite (applyBoundaryCondition_frame _boundaryConditionSolver)
    by auto with frame.
  cbn [with_velocity _velocity _boundaryConditionSolver].
  now rewrite Hd3, Hb3, Hnu3, Hvel3, Hvel2.
Qed.

Lemma density_setGravity (s : GridSolver) (g : vec) (i : Index2) :
  density_at (setGravity s g) i = density_at s i.
Proof. reflexivity. Qed.

(** X7.  No stage of a step reads the gravity: a step from a solver whose
    gravity has been set to [g] gives the solver that the step gives
    without that, with its gravity set to [g]; the density and the
    velocity after the step are the same for every gravity. *)
Theorem step_ignores_gravity (s : GridSolver) (g : vec) (dt : Q) :
  onAdvanceTimeStep (setGravity s g) dt
  = setGravity (onAdvanceTimeStep s dt) g /\
  (forall i, density_at (onAdvanceTimeStep (setGravity s g) dt) i
             = density_at (onAdvanceTimeStep s dt) i) /\
  _velocity (onAdvanceTimeStep (setGravity s g) dt)
  = _velocity (onAdvanceTimeStep s dt).
Proof.
  rewrite onAdvanceTimeStep_setGravity.
  split; [reflexivity|split].
  - intros i. apply density_setGravity.
  - apply velocity_setGravity.
Qed.

End Composition.

(** ** Gravity *)

Lemma NoDup_forEachIndex (size : Index2) : NoDup (forEachIndex size).
Proof. apply NoDup_rows; apply NoDup_Zrange. Qed.

Lemma add_to_each_spec (c : Q) (l : list Index2) :
  NoDup l ->
  forall (d : GridData) (k : Index2),
    (In k l ->
     fold_left (fun d i => grid_set d i (d i + c)%Q) l d k = (d k + c)%Q) /\
    (~ In k l ->
     fold_left (fun d i => grid_set d i (d i + c)%Q) l d k = d k).
Proof.
  induction 1 as [|i l Hi Hl IH]; intros d k; simpl.
  - split; [intros []|reflexivity].
  - destruct (IH (grid_set d i (d i + c)%Q) k) as [Hin Hout]. split.
    + intros [->|Hk].
      * rewrite Hout by assumption. apply grid_set_eq.
      * rewrite Hin by assumption. rewrite grid_set_neq; [reflexivity|].
        intros ->. contradiction.
    + intros Hk. rewrite Hout by tauto. apply grid_set_neq.
      intros ->. tauto.
Qed.

Lemma add_to_all_spec (size : Index2) (c : Q) (d : GridData) (k : Index2) :
  (in_extent size k -> add_to_all size c d k = (d k + c)%Q) /\
  (~ in_extent size k -> add_to_all size c d k = d k).
Proof.
  unfold add_to_all, in_extent. rewrite <- forEachIndex_spec.
  apply add_to_each_spec, NoDup_forEachIndex.
Qed.

Section Gravity.

Context `{E : Collaborators}.

(** X8.  [computeGravity] leaves the solver as it is when the squared norm
    of the gravity does not exceed the smallest positive value.  Otherwise,
    for each axis whose gravity component is not zero (in magnitude above
    that value), every sample of that component's array gains exactly
    interval * component, once, and samples outside the array's extent and
    the arrays of the other axes are untouched; interior density cells keep
    their value, and for N >= 1 the ghost-border invariant holds. *)
Theorem computeGravity_adds_interval_times_gravity (s : GridSolver) (dt : Q) :
  ((squaredNorm (_gravity s) <= Limits_eps)%Q -> computeGravity s dt = s) /\
  ((Limits_eps < squaredNorm (_gravity s))%Q ->
   let v := _velocity s in
   let v' := _velocity (computeGravity s dt) in
   (isZero (vx (_gravity s)) = true -> udata v' = udata v) /\
   (isZero (vx (_gravity s)) = false ->
    forall i,
      (in_extent (iSize0 v) i ->
       velocityAt0 v' i = (velocityAt0 v i + dt * vx (_gravity s))%Q) /\
      (~ in_extent (iSize0 v) i -> velocityAt0 v' i = velocityAt0 v i)) /\
   (isZero (vy (_gravity s)) = true -> vdata v' = vdata v) /\
   (isZero (vy (_gravity s)) = false ->
    forall i,
      (in_extent (iSize1 v) i ->
       velocityAt1 v' i = (velocityAt1 v i + dt * vy (_gravity s))%Q) /\
      (~ in_extent (iSize1 v) i -> velocityAt1 v' i = velocityAt1 v i)) /\
   (forall i, interior (ix (size s)) i ->
      density_at (computeGravity s dt) i = density_at s i) /\
   (1 <= ix (size s) -> ghost_border_ok (computeGravity s dt))).
Proof.
  split.
  - intros Hsmall. unfold computeGravity.
    assert (Hb : Qlt_bool Limits_eps (squaredNorm (_gravity s)) = false)
      by now apply Qlt_bool_false.
    now rewrite Hb.
  - intros Hbig. cbv zeta. unfold computeGravity.
    assert (Hb : Qlt_bool Limits_eps (squaredNorm (_gravity s)) = true)
      by now apply Qlt_bool_true.
    rewrite Hb. cbv zeta.
    rewrite (applyBoundaryCondition_frame _velocity) by auto with frame.
    cbn [with_velocity _velocity udata vdata velocityAt0 velocityAt1].
    unfold velocityAt0, velocityAt1. cbn [udata vdata].
    split; [|split; [|split; [|split; [|split]]]].
    + intros Hz. now rewrite Hz.
    + intros Hz i. rewrite Hz. cbn [negb]. apply add_to_all_spec.
    + intros Hz. now rewrite Hz.
    + intros Hz i. rewrite Hz. cbn [negb]. apply add_to_all_spec.
    + intros i Hi. now rewrite applyBoundaryCondition_interior.
    + intros HN. now apply applyBoundaryCondition_ghost.
Qed.

End Gravity.

(** ** More on the CFL number and the sub-step count *)

Section CflMore.

Context `{E : Collaborators}.

Lemma vec_min_positive (a : vec) :
  (0 < vx a)%Q -> (0 < vy a)%Q -> (0 < vec_min a)%Q.
Proof.
  intros Hx Hy. unfold vec_min.
  destruct (math_min_spec (vx a) (vy a)) as [[_ Heq]|[_ Heq]]; now rewrite Heq.
Qed.

(** X9.  For an interval that is not negative and a positive grid spacing,
    and a [Vector::max()] that is at least each coordinate of its vector,
    the CFL number is not negative, and it is at least
    c * interval / min(spacing) for every coordinate c of the advanced
    velocity of every cell of the velocity grid. *)
Theorem cfl_nonnegative_and_dominates_cells (s : GridSolver) (dt : Q) :
  max_dominates_coordinates ->
  (0 <= dt)%Q ->
  (0 < vx (gridSpacing (_velocity s)))%Q ->
  (0 < vy (gridSpacing (_velocity s)))%Q ->
  (0 <= cfl s dt)%Q /\
  forall i, in_extent (vsize (_velocity s)) i ->
    (vx (advanced_velocity s dt i) * dt / vec_min (gridSpacing (_velocity s))
     <= cfl s dt)%Q /\
    (vy (advanced_velocity s dt i) * dt / vec_min (gridSpacing (_velocity s))
     <= cfl s dt)%Q.
Proof.
  intros Hdom Hdt Hhx Hhy.
  destruct (cfl_maxVel_spec s dt) as [H0 [Hall _]].
  pose proof (vec_min_positive _ Hhx Hhy) as Hm.
  assert (Hmono : forall a, (a <= cfl_maxVel s dt)%Q ->
            (a * dt / vec_min (gridSpacing (_velocity s)) <= cfl s dt)%Q).
  { intros a Ha. unfold cfl. apply Qdiv_le_compat_pos; [exact Hm|].
    now apply Qmult_le_compat_r. }
  split.
  - specialize (Hmono 0%Q H0).
    assert (Hz : (0 * dt / vec_min (gridSpacing (_velocity s)) == 0)%Q).
    { unfold Qdiv. ring. }
    now rewrite Hz in Hmono.
  - intros i Hi. specialize (Hall i Hi).
    destruct (Hdom (advanced_velocity s dt i)) as [Hcx Hcy].
    split; apply Hmono; lra.
Qed.

Lemma count_covers_cfl (s : GridSolver) (dt : Q) (n : N) :
  (0 < _maxCfl s)%Q ->
  numberOfSubTimeSteps s dt = Some n ->
  (cfl s dt <= inject_Z (Z.of_N n) * _maxCfl s)%Q.
Proof.
  intros Hm Hn. apply numberOfSubTimeSteps_some in Hn. rewrite Hn.
  set (q := (cfl s dt / _maxCfl s)%Q).
  assert (Hq : (q <= inject_Z (Z.max (Qceiling q) 1))%Q).
  { apply Qle_trans with (inject_Z (Qceiling q)); [apply Qle_ceiling|].
    rewrite <- Zle_Qle. lia. }
  assert (Hcfl : (cfl s dt == q * _maxCfl s)%Q).
  { unfold q. field. intros H0. rewrite H0 in Hm. now apply (Qlt_irrefl 0). }
  rewrite Hcfl. apply Qmult_le_compat_r; [exact Hq|]. now apply Qlt_le_weak.
Qed.

(** X11.  With a positive maximal CFL number, a returned sub-step count n
    is enough: cfl <= n * maxCfl, so the CFL number divided by n does not
    exceed maxCfl; and n is the least such count above zero: when n > 1,
    (n - 1) * maxCfl < cfl. *)
Theorem numberOfSubTimeSteps_is_least_sufficient
    (s : GridSolver) (dt : Q) (n : N) :
  (0 < _maxCfl s)%Q ->
  numberOfSubTimeSteps s dt = Some n ->
  (cfl s dt <= inject_Z (Z.of_N n) * _maxCfl s)%Q /\
  (1 < Z.of_N n -> (inject_Z (Z.of_N n - 1) * _maxCfl s < cfl s dt)%Q).
Proof.
  intros Hm Hn. split; [now apply count_covers_cfl|].
  apply numberOfSubTimeSteps_some in Hn. rewrite Hn.
  set (q := (cfl s dt / _maxCfl s)%Q). intros Hbig.
  assert (Hmax : Z.max (Qceiling q) 1 = Qceiling q) by lia.
  rewrite Hmax.
  assert (Hcfl : (cfl s dt == q * _maxCfl s)%Q).
  { unfold q. field. intros H0. rewrite H0 in Hm. now apply (Qlt_irrefl 0). }
  rewrite Hcfl. apply Qmult_lt_compat_r; [exact Hm|apply Qceiling_lt].
Qed.


End CflMore.

(** ** The range of the density *)

Lemma lerp_bounded (lo hi a b t : Q) :
  (0 <= t <= 1)%Q -> (lo <= a <= hi)%Q -> (lo <= b <= hi)%Q ->
  (lo <= lerp a b t <= hi)%Q.
Proof. intros Ht Ha Hb. unfold lerp. split; nra. Qed.

Lemma getBarycentric_fraction (x : Q) (extent : Z) :
  (0 <= snd (getBarycentric x extent) <= 1)%Q.
Proof.
  unfold getBarycentric. cbv zeta.
  destruct (Qfloor x <? 0); [cbn; lra|].
  destruct (extent - 2 <? Qfloor x); [cbn; lra|].
  cbn [snd]. pose proof (Qfloor_le x) as Hlo. pose proof (Qlt_floor x) as Hhi.
  rewrite inject_Z_plus in Hhi. change (inject_Z 1) with 1%Q in Hhi.
  split; lra.
Qed.

Lemma sample_bounded (lo hi : Q) (g : CellCenteredScalarGrid) (p : vec) :
  bounded lo hi (ddata g) -> (lo <= sample g p <= hi)%Q.
Proof.
  intros Hb. unfold sample.
  pose proof (getBarycentric_fraction
                ((vx p - vx (dataOrigin g)) / vx (cellSize g)) (ix (dsize g)))
    as Hfx.
  pose proof (getBarycentric_fraction
                ((vy p - vy (dataOrigin g)) / vy (cellSize g)) (iy (dsize g)))
    as Hfy.
  destruct (getBarycentric _ (ix (dsize g))) as [i fx].
  destruct (getBarycentric _ (iy (dsize g))) as [j fy].
  cbn [snd] in *.
  apply lerp_bounded; [exact Hfy| |]; apply lerp_bounded; auto.
Qed.

Lemma grid_set_bounded (lo hi : Q) (d : GridData) (k : Index2) (v : Q) :
  bounded lo hi d -> (lo <= v <= hi)%Q -> bounded lo hi (grid_set d k v).
Proof.
  intros Hd Hv i. unfold grid_set. destruct (Index2_eqb i k); [exact Hv|apply Hd].
Qed.

Lemma mean_bounded (lo hi a b : Q) :
  (lo <= a <= hi)%Q -> (lo <= b <= hi)%Q -> (lo <= (1#2) * (a + b) <= hi)%Q.
Proof. intros Ha Hb. split; lra. Qed.

(** A field written with values of the field, or with means of two of
    them, stays within its bounds. *)
Ltac bounded_writes :=
  lazymatch goal with
  | |- bounded ?lo ?hi (grid_set ?d _ _) =>
      let H := fresh "Hb" in
      assert (H : bounded lo hi d) by bounded_writes;
      apply grid_set_bounded;
      [exact H|first [apply (H _)|apply mean_bounded; apply (H _)]]
  | |- _ => assumption
  end.

Lemma boundary_data_bounded (lo hi : Q) (N : Z) (d : GridData) :
  bounded lo hi d -> bounded lo hi (boundary_data N d).
Proof.
  intros Hd. unfold boundary_data.
  assert (Hloop : bounded lo hi (for_each (Zrange 1 N) (boundary_round N) d)).
  { apply (for_each_invariant (bounded lo hi)); [|exact Hd].
    intros i d' _ Hd'. unfold boundary_round. cbv zeta. bounded_writes. }
  unfold boundary_corners. cbv zeta. bounded_writes.
Qed.

Section Range.

Context `{E : Collaborators}.

Variables lo hi : Q.

Lemma applyBoundaryCondition_range (s : GridSolver) :
  density_in_range lo hi s -> density_in_range lo hi (applyBoundaryCondition s).
Proof. intros Hs. now apply boundary_data_bounded. Qed.

Lemma beginAdvanceTimeStep_range (s : GridSolver) (dt : Q) :
  density_in_range lo hi s -> density_in_range lo hi (beginAdvanceTimeStep s dt).
Proof.
  intros Hs.
  unfold beginAdvanceTimeStep, onBeginAdvanceTimeStep, updateEmitter.
  apply applyBoundaryCondition_range.
  unfold density_in_range, updateCollider. now destruct (_collider s).
Qed.

Lemma computeViscosity_range (s : GridSolver) (dt : Q) :
  density_in_range lo hi s -> density_in_range lo hi (computeViscosity s dt).
Proof.
  intros Hs. unfold computeViscosity.
  destruct (isPositive (_viscosityCoefficient s)); [|exact Hs].
  now apply applyBoundaryCondition_range.
Qed.

Lemma computePressure_range (s : GridSolver) (dt : Q) :
  density_in_range lo hi s -> density_in_range lo hi (computePressure s dt).
Proof.
  intros Hs. unfold computePressure. now apply applyBoundaryCondition_range.
Qed.

Lemma computeAdvection_range (s : GridSolver) (dt : Q) :
  density_in_range lo hi s -> density_in_range lo hi (computeAdvection s dt).
Proof.
  intros Hs. unfold computeAdvection. apply applyBoundaryCondition_range.
  unfold advection_sweep.
  apply (for_each_invariant (density_in_range lo hi)); [|exact Hs].
  intros y s1 _ H1. apply (for_each_invariant (density_in_range lo hi)); [|exact H1].
  intros x s2 _ H2. unfold density_in_range, advectDensity. cbn.
  apply grid_set_bounded; [exact H2|]. now apply sample_bounded.
Qed.

Lemma onAdvanceTimeStep_range (s : GridSolver) (dt : Q) :
  density_in_range lo hi s -> density_in_range lo hi (onAdvanceTimeStep s dt).
Proof.
  intros Hs.
  unfold onAdvanceTimeStep, velocityStep, densityStep, computeSource,
    endAdvanceTimeStep, onEndAdvanceTimeStep.
  apply computeAdvection_range, computePressure_range, computeViscosity_range,
    beginAdvanceTimeStep_range.
  apply computeAdvection_range, computeViscosity_range,
    applyBoundaryCondition_range, beginAdvanceTimeStep_range.
  exact Hs.
Qed.

End Range.

Section RangeTheorem.

Context `{E : Collaborators}.

(** X13.  A step creates no density value outside the range of the values
    it starts from: if every density value lies between [lo] and [hi]
    before the step, every density value lies between [lo] and [hi] after
    it, whatever the velocity, the interval, the collider and the
    sub-solvers.  (The boundary condition copies and averages; the
    advection writes a sample, which is modelled as a bilinear
    interpolation of stored values.) *)
Theorem density_stays_in_range (s : GridSolver) (dt lo hi : Q) :
  (forall i, (lo <= density_at s i <= hi)%Q) ->
  forall i, (lo <= density_at (onAdvanceTimeStep s dt) i <= hi)%Q.
Proof.
  intros Hs. apply (onAdvanceTimeStep_range lo hi s dt). exact Hs.
Qed.

End RangeTheorem.

(** * The simulation window *)

(** A position within [0, extent) of a window axis lands in a cell. *)
Lemma to_int_cell (n : Z) (x extent : Q) :
  1 <= n -> (0 < extent)%Q -> (0 <= x < extent)%Q ->
  to_int (inject_Z n * x / extent) = Qfloor (inject_Z n * x / extent) /\
  0 <= to_int (inject_Z n * x / extent) <= n - 1.
Proof.
  intros Hn He [Hx0 Hx1].
  assert (Hn' : (1 <= inject_Z n)%Q).
  { change 1%Q with (inject_Z 1). rewrite <- Zle_Qle. exact Hn. }
  set (q := (inject_Z n * x / extent)%Q).
  assert (Hq0 : (0 <= q)%Q).
  { unfold q. apply Qle_shift_div_l; [exact He|]. nra. }
  assert (Hq1 : (q < inject_Z n)%Q).
  { unfold q. apply Qlt_shift_div_r; [exact He|]. nra. }
  assert (Hint : to_int q = Qfloor q).
  { unfold to_int.
    assert (Hb : Qle_bool 0 q = true) by now apply Qle_bool_iff.
    now rewrite Hb. }
  split; [exact Hint|]. rewrite Hint. split.
  - change 0 with (Qfloor (inject_Z 0)) at 1. rewrite Qfloor_Z.
    rewrite <- (Qfloor_Z 0). now apply Qfloor_resp_le.
  - assert (Hlt : (inject_Z (Qfloor q) < inject_Z n)%Q)
      by (apply Qle_lt_trans with q; [apply Qfloor_le|exact Hq1]).
    rewrite <- Zlt_Qlt in Hlt. lia.
Qed.

(** X14.  For a window at least 2 wide and a solver size of at least 1 x 1,
    a position inside the window (x in [0, width - 1), y in (0, height])
    always gets a cell of the solver, never -1: the column is
    floor(size.x * x / (width - 1)), the row is
    floor(size.y * (height - y) / height), counted from the bottom, and
    both lie within the size. *)
Theorem mouseToGridIndex_inside_window
    (width height : Z) (size : Index2) (xPos yPos : Q) :
  2 <= width -> 1 <= height -> 1 <= ix size -> 1 <= iy size ->
  (0 <= xPos < inject_Z (width - 1))%Q ->
  (0 < yPos <= inject_Z height)%Q ->
  let r := mouseToGridIndex width height size xPos yPos in
  ix r = Qfloor (inject_Z (ix size) * xPos / inject_Z (width - 1)) /\
  iy r = Qfloor (inject_Z (iy size) * (inject_Z height - yPos)
                 / inject_Z height) /\
  0 <= ix r <= ix size - 1 /\ 0 <= iy r <= iy size - 1.
Proof.
  intros Hw Hh Hsx Hsy Hx Hy. cbv zeta.
  assert (Hw' : (0 < inject_Z (width - 1))%Q).
  { change 0%Q with (inject_Z 0). rewrite <- Zlt_Qlt. lia. }
  assert (Hh' : (0 < inject_Z height)%Q).
  { change 0%Q with (inject_Z 0). rewrite <- Zlt_Qlt. lia. }
  destruct (to_int_cell (ix size) xPos _ Hsx Hw' Hx) as [Hi Hir].
  assert (Hy' : (0 <= inject_Z height - yPos < inject_Z height)%Q)
    by (split; lra).
  destruct (to_int_cell (iy size) _ _ Hsy Hh' Hy') as [Hj Hjr].
  unfold mouseToGridIndex. cbv zeta. cbn [ix iy].
  rewrite <- Hi, <- Hj.
  destruct (Z.ltb_spec
              (to_int (inject_Z (ix size) * xPos / inject_Z (width - 1))) 0);
    [lia|].
  destruct (Z.gtb_spec
              (to_int (inject_Z (ix size) * xPos / inject_Z (width - 1)))
              (ix size - 1)); [lia|].
  destruct (Z.ltb_spec
              (to_int (inject_Z (iy size) * (inject_Z height - yPos)
                       / inject_Z height)) 0); [lia|].
  destruct (Z.gtb_spec
              (to_int (inject_Z (iy size) * (inject_Z height - yPos)
                       / inject_Z height)) (iy size - 1)); [lia|].
  cbn [orb]. repeat split; lia.
Qed.

(** X15.  The overload that takes a position never returns a component
    outside the solver's size other than -1, and it returns what the
    overload that reads the cursor returns wherever that is within the
    size.  The latter does no check: for a cursor in the last pixel column
    (x = width - 1) it returns column size.x, one past the last cell, where
    the former returns -1. *)
Theorem mouseToGridIndex_guard
    (width height : Z) (size : Index2) (xPos yPos : Z) :
  let r := mouseToGridIndex width height size (inject_Z xPos) (inject_Z yPos) in
  let u := mouseToGridIndex_cursor width height size xPos yPos in
  (ix r = -1 \/ 0 <= ix r <= ix size - 1) /\
  (iy r = -1 \/ 0 <= iy r <= iy size - 1) /\
  (0 <= ix u <= ix size - 1 -> ix r = ix u) /\
  (0 <= iy u <= iy size - 1 -> iy r = iy u) /\
  (~ 0 <= ix u <= ix size - 1 -> ix r = -1) /\
  (~ 0 <= iy u <= iy size - 1 -> iy r = -1) /\
  (2 <= width -> 1 <= ix size -> xPos = width - 1 ->
   ix u = ix size /\ ix r = -1).
Proof.
  cbv zeta. unfold mouseToGridIndex, mouseToGridIndex_cursor. cbv zeta.
  cbn [ix iy].
  assert (Hi : to_int (inject_Z (ix size) * inject_Z xPos / inject_Z (width - 1))
               = to_int (inject_Z (ix size * xPos) / inject_Z (width - 1))).
  { apply to_int_comp. now rewrite inject_Z_mult. }
  rewrite Hi.
  set (i := to_int (inject_Z (ix size * xPos) / inject_Z (width - 1))).
  set (j := to_int (inject_Z (iy size) * (inject_Z height - inject_Z yPos)
                    / inject_Z height)).
  assert (Hlast : 2 <= width -> 1 <= ix size -> xPos = width - 1 -> i = ix size).
  { intros Hw Hs ->. unfold i.
    rewrite <- (to_int_Z (ix size)) at 2. apply to_int_comp.
    rewrite inject_Z_mult. field.
    intros H0. unfold Qeq in H0. cbn in H0. lia. }
  destruct (Z.ltb_spec i 0), (Z.gtb_spec i (ix size - 1)),
    (Z.ltb_spec j 0), (Z.gtb_spec j (iy size - 1)); cbn [orb];
    repeat split; intros; try lia;
    try (rewrite Hlast by assumption; reflexivity);
    try (specialize (Hlast ltac:(assumption) ltac:(assumption)
                       ltac:(assumption)); lia).
Qed.

(** X16.  For a mesh of [d_size.x] by [d_size.y] vertices with
    1 <= d_size.x <= d_size.y (in [buildSolver] the two are equal), the
    index buffer holds exactly 6 * (d_size.x - 1) * (d_size.y - 1) entries,
    the size it was allocated with, and every entry is the index of a
    vertex: it lies in [0, d_size.x * d_size.y). *)
Theorem element_indices_fill_and_address_vertices (d_size : Index2) :
  1 <= ix d_size -> ix d_size <= iy d_size ->
  Z.of_nat (length (element_indices d_size))
  = (ix d_size - 1) * (iy d_size - 1) * 6 /\
  forall k, In k (element_indices d_size) ->
            0 <= k < ix d_size * iy d_size.
Proof.
  intros Hx Hxy. split.
  - unfold element_indices.
    assert (Hlen : forall (A : Type) (f : Z -> list A) (l : list Z) (n : nat),
               (forall x, length (f x) = n) ->
               length (flat_map f l) = (length l * n)%nat).
    { intros A f l n Hf. induction l as [|a l IH]; simpl; [reflexivity|].
      rewrite length_app, Hf, IH. reflexivity. }
    rewrite (Hlen _ _ _ (length (Zrange 0 (iy d_size - 2)) * 6)%nat).
    + unfold Zrange. rewrite !length_map, !length_seq. nia.
    + intros x. now apply Hlen.
  - intros k Hk. unfold element_indices in Hk.
    apply in_flat_map in Hk. destruct Hk as [x [Hx' Hk]].
    apply in_flat_map in Hk. destruct Hk as [z [Hz Hk]].
    apply Zrange_spec in Hx'. apply Zrange_spec in Hz.
    cbv zeta in Hk. simpl in Hk.
    destruct Hk as [<-|[<-|[<-|[<-|[<-|[<-|[]]]]]]]; nia.
Qed.

(** * The point grid searcher *)

Section Neighbors.

Variable grid : PointGrid.
Variable point : vec.

Lemma near_point_test (h : Q) (id : nat) :
  negb (Qeq_bool (squaredNorm (vec_sub point (pg_points grid id))) 0)
  && Qle_bool (squaredNorm (vec_sub point (pg_points grid id))) h = true
  <-> near_point grid point h id.
Proof.
  unfold near_point.
  rewrite andb_true_iff, negb_true_iff, Qle_bool_iff. split.
  - intros [Hz Hle]. split; [now apply Qeq_bool_neq|exact Hle].
  - intros [Hz Hle]. split; [|exact Hle].
    destruct (Qeq_bool (squaredNorm (vec_sub point (pg_points grid id))) 0)
      eqn:Hb; [|reflexivity].
    apply Qeq_bool_iff in Hb. contradiction.
Qed.

Lemma add_cell_neighbors_spec (h : Q) (c : Index2) (acc : list nat) (id : nat) :
  In id (add_cell_neighbors grid point h c acc) <->
  In id acc \/ (In id (pg_cell grid c) /\ near_point grid point h id).
Proof.
  unfold add_cell_neighbors. revert acc.
  induction (pg_cell grid c) as [|k l IH]; intros acc; simpl.
  - tauto.
  - rewrite IH. cbv zeta.
    pose proof (near_point_test h k) as Htest.
    destruct (negb (Qeq_bool (squaredNorm (vec_sub point (pg_points grid k))) 0)
              && Qle_bool (squaredNorm (vec_sub point (pg_points grid k))) h).
    + assert (Hk : near_point grid point h k) by now apply Htest.
      rewrite in_app_iff. simpl. split.
      * intros [[H|[H|[]]]|H]; [tauto|subst; tauto|tauto].
      * intros [H|[[H|H] Hn]]; [tauto|subst; tauto|tauto].
    + assert (Hk : ~ near_point grid point h k).
      { intros Hn. apply Htest in Hn. discriminate Hn. }
      split.
      * intros [H|H]; tauto.
      * intros [H|[[H|H] Hn]]; [tauto|subst; contradiction|tauto].
Qed.

(** A loop whose rounds are skipped where [guard] holds. *)
Lemma guarded_loop_spec (guard : Z -> bool)
    (body : Z -> list nat -> list nat) (found : Z -> nat -> Prop) (l : list Z) :
  (forall i acc id, In id (body i acc) <-> In id acc \/ found i id) ->
  forall acc id,
    In id (for_each l (fun i nids => if guard i then nids else body i nids) acc)
    <-> In id acc \/ exists i, In i l /\ guard i = false /\ found i id.
Proof.
  intros Hbody. unfold for_each.
  induction l as [|i l IH]; intros acc id; simpl.
  - split; [tauto|]. intros [H|[i [[] _]]]. exact H.
  - rewrite IH. destruct (guard i) eqn:Hg.
    + split.
      * intros [H|[i' [Hi' H]]]; [tauto|].
        right. exists i'. split; [now right|exact H].
      * intros [H|[i' [[<-|Hi'] [Hg' H]]]]; [tauto|congruence|].
        right. exists i'. tauto.
    + rewrite Hbody. split.
      * intros [[H|H]|[i' [Hi' H]]]; [tauto| |].
        -- right. exists i. split; [now left|]. tauto.
        -- right. exists i'. split; [now right|exact H].
      * intros [H|[i' [[<-|Hi'] [Hg' H]]]]; [tauto|tauto|].
        right. exists i'. tauto.
Qed.

Lemma out_of_extent_false (c n : Z) :
  (c <? 0) || (c >=? n) = false <-> 0 <= c < n.
Proof.
  destruct (Z.ltb_spec c 0), (Z.geb_spec c n); cbn [orb]; split;
    intros; try lia; try discriminate; reflexivity.
Qed.

Lemma cell_loop_spec (h : Q) (acc : list nat) (id : nat) :
  In id
    (for_each (Zrange (-1) 1)
       (fun j nids =>
          let cy := iy (pg_index grid point) + j in
          if (cy <? 0) || (cy >=? iy (pg_size grid)) then nids
          else
            for_each (Zrange (-1) 1)
              (fun i nids =>
                 let cx := ix (pg_index grid point) + i in
                 if (cx <? 0) || (cx >=? ix (pg_size grid)) then nids
                 else add_cell_neighbors grid point h (mkIndex2 cx cy) nids)
              nids)
       acc) <->
  In id acc \/
  exists j i, -1 <= j <= 1 /\ -1 <= i <= 1 /\
    0 <= iy (pg_index grid point) + j < iy (pg_size grid) /\
    0 <= ix (pg_index grid point) + i < ix (pg_size grid) /\
    In id (pg_cell grid (mkIndex2 (ix (pg_index grid point) + i)
                                  (iy (pg_index grid point) + j))) /\
    near_point grid point h id.
Proof.
  cbv zeta.
  rewrite (guarded_loop_spec
             (fun j => (iy (pg_index grid point) + j <? 0)
                       || (iy (pg_index grid point) + j >=? iy (pg_size grid)))
             _
             (fun j id =>
                exists i, In i (Zrange (-1) 1) /\
                  (ix (pg_index grid point) + i <? 0)
                  || (ix (pg_index grid point) + i >=? ix (pg_size grid))
                  = false /\
                  In id (pg_cell grid
                           (mkIndex2 (ix (pg_index grid point) + i)
                                     (iy (pg_index grid point) + j))) /\
                  near_point grid point h id)).
  - split.
    + intros [H|[j [Hj [Hgj [i [Hi [Hgi H]]]]]]]; [now left|].
      right. exists j, i. apply Zrange_spec in Hj. apply Zrange_spec in Hi.
      apply out_of_extent_false in Hgj. apply out_of_extent_false in Hgi.
      tauto.
    + intros [H|[j [i (Hj & Hi & Hy & Hx & H)]]]; [now left|].
      right. exists j. split; [now apply Zrange_spec|].
      split; [now apply out_of_extent_false|].
      exists i. split; [now apply Zrange_spec|].
      split; [now apply out_of_extent_false|exact H].
  - intros j acc' id'.
    apply (guarded_loop_spec
             (fun i => (ix (pg_index grid point) + i <? 0)
                       || (ix (pg_index grid point) + i >=? ix (pg_size grid)))
             (fun i nids =>
                add_cell_neighbors grid point h
                  (mkIndex2 (ix (pg_index grid point) + i)
                            (iy (pg_index grid point) + j)) nids)
             (fun i id =>
                In id (pg_cell grid
                         (mkIndex2 (ix (pg_index grid point) + i)
                                   (iy (pg_index grid point) + j))) /\
                near_point grid point h id)).
    intros i acc'' id''. apply add_cell_neighbors_spec.
Qed.

(** X17.  [findNeighbors] returns the length of the list it leaves in
    [nids], and that list holds exactly the ids that are stored in a cell
    of the grid at most one cell away, on each axis, from the cell of the
    query point, and whose point is not at the query point and not farther
    from it than the smaller cell size (squared distance at most its
    square).  What [nids] held before is gone. *)
Theorem findNeighbors_finds_exactly_the_near_points (nids : list nat) :
  let s := pg_index grid point in
  let r := findNeighbors grid point nids in
  snd r = length (fst r) /\
  forall id,
    In id (fst r) <->
    exists c,
      -1 <= ix c - ix s <= 1 /\ -1 <= iy c - iy s <= 1 /\
      in_extent (pg_size grid) c /\
      In id (pg_cell grid c) /\
      ~ (squaredNorm (vec_sub point (pg_points grid id)) == 0)%Q /\
      (squaredNorm (vec_sub point (pg_points grid id))
       <= vec_min (pg_cellSize grid) * vec_min (pg_cellSize grid))%Q.
Proof.
  cbv zeta. split; [reflexivity|]. intros id.
  unfold findNeighbors. cbv zeta. cbn [fst].
  rewrite cell_loop_spec. unfold near_point, math_sqr, in_extent. split.
  - intros [[]|[j [i (Hj & Hi & Hy & Hx & Hin & Hn)]]].
    exists (mkIndex2 (ix (pg_index grid point) + i)
                     (iy (pg_index grid point) + j)).
    cbn [ix iy]. repeat split; try lia; tauto.
  - intros [c (Hcx & Hcy & [Hx Hy] & Hin & Hn)]. right.
    exists (iy c - iy (pg_index grid point)),
           (ix c - ix (pg_index grid point)).
    replace (ix (pg_index grid point) + (ix c - ix (pg_index grid point)))
      with (ix c) by lia.
    replace (iy (pg_index grid point) + (iy c - iy (pg_index grid point)))
      with (iy c) by lia.
    split; [lia|]. split; [lia|].
    split; [lia|]. split; [lia|]. split; [|exact Hn]. now destruct c.
Qed.

(** X18.  When the cell of the query point is more than one cell outside
    the grid on some axis, [findNeighbors] finds nothing: it leaves [nids]
    empty and returns 0. *)
Theorem findNeighbors_far_outside_finds_nothing (nids : list nat) :
  let s := pg_index grid point in
  ix s < -1 \/ ix (pg_size grid) < ix s \/
  iy s < -1 \/ iy (pg_size grid) < iy s ->
  findNeighbors grid point nids = ([], 0%nat).
Proof.
  cbv zeta. intros Hout.
  assert (Hnil : fst (findNeighbors grid point nids) = []).
  { destruct (fst (findNeighbors grid point nids)) as [|id l] eqn:Hr;
      [reflexivity|].
    exfalso.
    assert (Hin : In id (fst (findNeighbors grid point nids)))
      by (rewrite Hr; now left).
    unfold findNeighbors in Hin. cbv zeta in Hin. cbn [fst] in Hin.
    rewrite cell_loop_spec in Hin.
    destruct Hin as [[]|[j [i (Hj & Hi & Hy & Hx & _)]]].
    lia. }
  unfold findNeighbors in *. cbv zeta in *. cbn [fst] in Hnil.
  now rewrite Hnil.
Qed.

End Neighbors.

(** * The further properties on concrete inputs *)

(** [findNeighbors] on the small grid, from the place of points 0 and 1:
    those two are at the query point and are left out; point 2 of the same
    cell and point 3 of the next cell, at distance 1, are found. *)
Example findNeighbors_grid_3x3 :
  findNeighbors grid_3x3 (mkVec (3#2) (3#2)) [7%nat] = ([2; 3]%nat, 2%nat).
Proof. vm_compute. reflexivity. Qed.

Lemma ring_from_interior_witness :
  let s2 := with_density solver_4x4
              (set_data (_density solver_4x4)
                 (grid_set (ddata (_density solver_4x4)) (mkIndex2 0 3) 5%Q)) in
  1 <= ix (size solver_4x4) /\
  density_at (applyBoundaryCondition solver_4x4) (mkIndex2 0 3)
  = density_at (applyBoundaryCondition s2) (mkIndex2 0 3).
Proof.
  cbv zeta.
  assert (HN : 1 <= ix (size solver_4x4)) by (cbn; lia).
  split; [exact HN|].
  apply (applyBoundaryCondition_ring_from_interior (E := still_fluid)
           solver_4x4 _ (mkIndex2 0 3) HN).
  - reflexivity.
  - intros i Hi. unfold density_at. cbn. unfold grid_set at 2.
    destruct (Index2_eqb_spec i (mkIndex2 0 3)) as [->|_]; [|reflexivity].
    unfold interior in Hi. cbn in Hi. lia.
  - left. unfold ghost_cell. cbn. lia.
Defined.

(** The stirred 2 x 2 solver: the ghost cell (3,2) holds 7 before the
    sweep and after it, while the interior cell (2,2) next to it is
    overwritten. *)
Lemma writes_inside_only_witness :
  ghost_cell (ix (size solver_2x2_stirred)) (mkIndex2 3 2) /\
  (density_at solver_2x2_stirred (mkIndex2 3 2) == 7)%Q /\
  (density_at solver_2x2_stirred (mkIndex2 2 2) == 0)%Q /\
  (density_at (advection_sweep solver_2x2_stirred 1) (mkIndex2 2 2) == 7)%Q /\
  density_at (advection_sweep solver_2x2_stirred 1) (mkIndex2 3 2)
  = density_at solver_2x2_stirred (mkIndex2 3 2) /\
  _velocity (computeAdvection solver_2x2_stirred 1)
  = _velocity solver_2x2_stirred.
Proof.
  assert (Hg : ghost_cell (ix (size solver_2x2_stirred)) (mkIndex2 3 2))
    by (unfold ghost_cell; cbn; lia).
  assert (H1 : (density_at solver_2x2_stirred (mkIndex2 3 2) == 7)%Q)
    by (vm_compute; reflexivity).
  assert (H2 : (density_at solver_2x2_stirred (mkIndex2 2 2) == 0)%Q)
    by (vm_compute; reflexivity).
  assert (H3 : (density_at (advection_sweep solver_2x2_stirred 1)
                  (mkIndex2 2 2) == 7)%Q) by (vm_compute; reflexivity).
  exact (conj Hg (conj H1 (conj H2 (conj H3
    (computeAdvection_writes_inside_only solver_2x2_stirred 1 (mkIndex2 3 2)
       Hg))))).
Defined.

Lemma no_collider_witness :
  _collider solver_2x2 = None /\
  collider_updates (onAdvanceTimeStep solver_2x2 (1#10))
  = collider_updates solver_2x2.
Proof.
  assert (Hc : _collider solver_2x2 = None) by reflexivity.
  exact (conj Hc (proj2 (proj2 (no_collider_no_update solver_2x2 (1#10) Hc)))).
Defined.

Lemma viscous_step_witness :
  @isPositive still_fluid (_viscosityCoefficient solver_2x2_viscous) = true /\
  _velocity (densityStep (beginAdvanceTimeStep solver_2x2_viscous (1#10)) (1#10))
  = _velocity solver_2x2_viscous.
Proof.
  assert (Hv : @isPositive still_fluid
                 (_viscosityCoefficient solver_2x2_viscous) = true)
    by (vm_compute; reflexivity).
  exact (conj Hv (proj1 (viscous_step_diffuses_twice solver_2x2_viscous (1#10) Hv))).
Defined.

Lemma largest_absolute_coordinate_dominates :
  @max_dominates_coordinates still_fluid.
Proof.
  intros v. cbn. unfold largest_absolute_coordinate.
  pose proof (Qle_Qabs (vx v)) as Hx. pose proof (Qle_Qabs (vy v)) as Hy.
  destruct (math_max_spec (Qabs (vx v)) (Qabs (vy v))) as [[Hlt Heq]|[Hle Heq]];
    rewrite Heq; split; lra.
Defined.

(** The stirred 2 x 2 solver with an interval of 1: the CFL number is 1000,
    and the advanced velocity of cell (2,1) is (-499.5, -9.8). *)
Lemma cfl_nonnegative_witness :
  let s := solver_2x2_stirred in
  @max_dominates_coordinates still_fluid /\
  (0 <= 1)%Q /\
  (0 < vx (gridSpacing (_velocity s)))%Q /\
  (0 < vy (gridSpacing (_velocity s)))%Q /\
  in_extent (vsize (_velocity s)) (mkIndex2 2 1) /\
  (cfl s 1 == 1000)%Q /\
  (0 <= cfl s 1)%Q /\
  (vx (advanced_velocity s 1 (mkIndex2 2 1)) * 1
   / vec_min (gridSpacing (_velocity s)) <= cfl s 1)%Q /\
  (vy (advanced_velocity s 1 (mkIndex2 2 1)) * 1
   / vec_min (gridSpacing (_velocity s)) <= cfl s 1)%Q.
Proof.
  cbv zeta.
  assert (H1 : (0 <= 1)%Q) by (vm_compute; discriminate).
  assert (H2 : (0 < vx (gridSpacing (_velocity solver_2x2_stirred)))%Q)
    by reflexivity.
  assert (H3 : (0 < vy (gridSpacing (_velocity solver_2x2_stirred)))%Q)
    by reflexivity.
  assert (H4 : in_extent (vsize (_velocity solver_2x2_stirred)) (mkIndex2 2 1))
    by (unfold in_extent; cbn; lia).
  assert (H5 : (cfl solver_2x2_stirred 1 == 1000)%Q)
    by (vm_compute; reflexivity).
  destruct (cfl_nonnegative_and_dominates_cells solver_2x2_stirred 1
              largest_absolute_coordinate_dominates H1 H2 H3) as [Hpos Hall].
  exact (conj largest_absolute_coordinate_dominates
    (conj H1 (conj H2 (conj H3 (conj H4 (conj H5 (conj Hpos
      (Hall (mkIndex2 2 1) H4)))))))).
Defined.

(** The constructed 2 x 2 solver with an interval of 1: the CFL number is
    9.8, maxCfl is 5 and two sub-steps are taken; 9.8 <= 2 * 5 and
    1 * 5 < 9.8. *)
Lemma least_sufficient_witness :
  (0 < _maxCfl solver_2x2)%Q /\
  numberOfSubTimeSteps solver_2x2 1 = Some 2%N /\
  (cfl solver_2x2 1 == 98#10)%Q /\
  (cfl solver_2x2 1 <= inject_Z (Z.of_N 2) * _maxCfl solver_2x2)%Q /\
  (inject_Z (Z.of_N 2 - 1) * _maxCfl solver_2x2 < cfl solver_2x2 1)%Q.
Proof.
  assert (Hm : (0 < _maxCfl solver_2x2)%Q) by reflexivity.
  assert (Hn : numberOfSubTimeSteps solver_2x2 1 = Some 2%N)
    by (vm_compute; reflexivity).
  assert (Hc : (cfl solver_2x2 1 == 98#10)%Q) by (vm_compute; reflexivity).
  assert (H1 : 1 < Z.of_N 2) by (cbn; lia).
  destruct (numberOfSubTimeSteps_is_least_sufficient solver_2x2 1 2%N Hm Hn)
    as [Hle Hlt].
  exact (conj Hm (conj Hn (conj Hc (conj Hle (Hlt H1))))).
Defined.


Lemma density_range_witness :
  (forall i, (0 <= density_at solver_4x4 i <= 1)%Q) /\
  (0 <= density_at (onAdvanceTimeStep solver_4x4 (1#10)) (mkIndex2 1 3) <= 1)%Q.
Proof.
  assert (H : forall i, (0 <= density_at solver_4x4 i <= 1)%Q).
  { intros i. unfold density_at. cbn. unfold grid_set.
    destruct (Index2_eqb i (mkIndex2 1 3)); split; vm_compute; discriminate. }
  exact (conj H (density_stays_in_range solver_4x4 (1#10) 0 1 H (mkIndex2 1 3))).
Defined.

Lemma mouse_inside_window_witness :
  2 <= 101 /\ 1 <= 100 /\ 1 <= ix (mkIndex2 10 10) /\ 1 <= iy (mkIndex2 10 10) /\
  (0 <= 55 < inject_Z (101 - 1))%Q /\ (0 < 25 <= inject_Z 100)%Q /\
  0 <= ix (mouseToGridIndex 101 100 (mkIndex2 10 10) 55 25) <= 10 - 1.
Proof.
  assert (H1 : 2 <= 101) by lia.
  assert (H2 : 1 <= 100) by lia.
  assert (H3 : 1 <= ix (mkIndex2 10 10)) by (cbn; lia).
  assert (H4 : 1 <= iy (mkIndex2 10 10)) by (cbn; lia).
  assert (H5 : (0 <= 55 < inject_Z (101 - 1))%Q)
    by (split; vm_compute; [discriminate|reflexivity]).
  assert (H6 : (0 < 25 <= inject_Z 100)%Q)
    by (split; vm_compute; [reflexivity|discriminate]).
  exact (conj H1 (conj H2 (conj H3 (conj H4 (conj H5 (conj H6
    (proj1 (proj2 (proj2
       (mouseToGridIndex_inside_window 101 100 (mkIndex2 10 10) 55 25
          H1 H2 H3 H4 H5 H6)))))))))).
Defined.

Lemma element_indices_witness :
  1 <= ix (mkIndex2 6 6) /\ ix (mkIndex2 6 6) <= iy (mkIndex2 6 6) /\
  Z.of_nat (length (element_indices (mkIndex2 6 6))) = (6 - 1) * (6 - 1) * 6.
Proof.
  assert (H1 : 1 <= ix (mkIndex2 6 6)) by (cbn; lia).
  assert (H2 : ix (mkIndex2 6 6) <= iy (mkIndex2 6 6)) by (cbn; lia).
  exact (conj H1 (conj H2 (proj1
    (element_indices_fill_and_address_vertices (mkIndex2 6 6) H1 H2)))).
Defined.

Lemma findNeighbors_far_outside_witness :
  (ix (pg_index grid_3x3 (mkVec 10 (1#2))) < -1 \/
   ix (pg_size grid_3x3) < ix (pg_index grid_3x3 (mkVec 10 (1#2))) \/
   iy (pg_index grid_3x3 (mkVec 10 (1#2))) < -1 \/
   iy (pg_size grid_3x3) < iy (pg_index grid_3x3 (mkVec 10 (1#2)))) /\
  findNeighbors grid_3x3 (mkVec 10 (1#2)) [7%nat] = ([], 0%nat).
Proof.
  assert (H : ix (pg_index grid_3x3 (mkVec 10 (1#2))) < -1 \/
              ix (pg_size grid_3x3) < ix (pg_index grid_3x3 (mkVec 10 (1#2))) \/
              iy (pg_index grid_3x3 (mkVec 10 (1#2))) < -1 \/
              iy (pg_size grid_3x3) < iy (pg_index grid_3x3 (mkVec 10 (1#2))))
    by (right; left; vm_compute; reflexivity).
  exact (conj H
    (findNeighbors_far_outside_finds_nothing grid_3x3 (mkVec 10 (1#2))
       [7%nat] H)).
Defined.
